(** * SiloNeT: offline localization strategies

    A shallow embedding of the two localization strategies of the repository

    - [student_algorithms/trilateration_offline_localization.py]
      (module [Trilateration]), and
    - [student_algorithms/beliefPropagationLocalization.py]
      (module [BeliefPropagation]),

    together with the properties of their specification.

    Numbers are IEEE 754 binary64 values, as Python's [float] and numpy's
    [float64] are: they are Rocq's primitive floats, so [nan], the
    infinities, signed zeros and rounding behave as they do in the program.
    Python dictionaries keep insertion order; they are association lists
    with unique keys, updated in place.  Node identifiers are Python
    integers ([Z]).  The dictionary [known_positions] that the iterative
    solver receives and writes to is one object, shared with the caller:
    it is a component of the state that the solver threads through its
    loops, and no copy of it is made anywhere.  [print] calls are not
    modelled.

    Library functions whose result the repository does not fix are
    parameters of the embedding: the Gaussian density of scipy in the grid
    solver, and, in the iterative solver, the power [** 2] and [sorted]
    ([Trilateration.Runtime]).  The theorems hold for every such
    function; where [sorted] matters they rest on what Python documents
    of it ([Trilateration.Sorts]).  Statements on concrete inputs are
    evaluated with [Scipy.norm_pdf] and [Trilateration.reference].  The
    grid parameters of the grid solver are Python ints, as its defaults
    are.

    The embedding comes first (modules [Py], [Np], [Trilateration],
    [Scipy], [BeliefPropagation], [NetworkSimulator], [Main],
    [SampleAlgorithm]), then the properties. *)

From Stdlib Require Import ZArith List Bool Lia Permutation Sorted Uint63 Floats.
Import ListNotations.

#[local] Set Warnings "-inexact-float".
#[local] Open Scope Z_scope.

(** ** Python values: exceptions and dictionaries *)

Module Py.

(** The exceptions the modelled code can raise. *)
Inductive exn : Type :=
| KeyError
| ValueError
| IndexError
| ZeroDivisionError
| OverflowError.

Inductive result (A : Type) : Type :=
| Ok (a : A)
| Raise (e : exn).
Arguments Ok {A} a.
Arguments Raise {A} e.

Definition bind {A B} (r : result A) (k : A -> result B) : result B :=
  match r with
  | Ok a => k a
  | Raise e => Raise e
  end.

(** [for x in l: acc = body acc x], stopping at the first exception. *)
Fixpoint for_each {A S} (body : S -> A -> result S) (l : list A) (s : S)
  : result S :=
  match l with
  | [] => Ok s
  | x :: l' => bind (body s x) (for_each body l')
  end.

(** A list comprehension whose element expression may raise. *)
Fixpoint comprehension {A B} (f : A -> result B) (l : list A)
  : result (list B) :=
  match l with
  | [] => Ok []
  | x :: l' =>
      bind (f x) (fun y => bind (comprehension f l') (fun ys => Ok (y :: ys)))
  end.

Section Dict.
Context {K V : Type} (eqb : K -> K -> bool).

(** A [dict]: the entries in insertion order. *)
Definition dict : Type := list (K * V).

(** [d.get(k)] *)
Fixpoint get (d : dict) (k : K) : option V :=
  match d with
  | [] => None
  | (k', v) :: d' => if eqb k' k then Some v else get d' k
  end.

(** [k in d] *)
Definition mem (d : dict) (k : K) : bool :=
  match get d k with Some _ => true | None => false end.

(** [d[k]], which raises [KeyError] on a missing key. *)
Definition item (d : dict) (k : K) : result V :=
  match get d k with Some v => Ok v | None => Raise KeyError end.

(** [d[k] = v]: an existing key keeps its place and takes the new
    value, a new key goes last. *)
Fixpoint set (d : dict) (k : K) (v : V) : dict :=
  match d with
  | [] => [(k, v)]
  | (k', v') :: d' =>
      if eqb k' k then (k', v) :: d' else (k', v') :: set d' k v
  end.

(** [d.keys()] *)
Definition keys (d : dict) : list K := map fst d.
End Dict.

End Py.

Import Py.

Notation "x <- e ;; k" := (Py.bind e (fun x => k))
  (at level 61, e at next level, right associativity).

(** Node identifiers and the two dictionaries of the solvers' contract. *)
Definition node : Type := Z.
Definition edge : Type := (node * node)%type.

Definition edge_eqb (e1 e2 : edge) : bool :=
  (fst e1 =? fst e2) && (snd e1 =? snd e2).

(** [distances]: from a pair of node ids to the measured distance. *)
Definition distance_map : Type := @Py.dict edge float.

(** A pair of floats: a tuple or a numpy array of shape [(2,)]. *)
Definition point : Type := (float * float)%type.

(** [set(node for edge in distances for node in edge) - set(known.keys())]:
    the distinct node ids of the distance keys that are no key of
    [known_positions], listed in the order of their first occurrence. *)
Definition nodes_of (distances : distance_map) : list node :=
  flat_map (fun kv => [fst (fst kv); snd (fst kv)]) distances.

Definition unknown_nodes {V} (known_positions : @Py.dict node V)
  (distances : distance_map) : list node :=
  nodup Z.eq_dec
    (filter (fun n => negb (Py.mem Z.eqb known_positions n))
       (nodes_of distances)).

(** ** numpy on float64 *)

Module Np.

#[local] Open Scope float_scope.

Definition vsub (p q : point) : point := (fst p - fst q, snd p - snd q).
Definition vadd (p q : point) : point := (fst p + fst q, snd p + snd q).
(** [a * v] and [v / a] for a scalar [a] *)
Definition vscale (a : float) (v : point) : point := (a * fst v, a * snd v).
Definition vdiv (v : point) (a : float) : point := (fst v / a, snd v / a).

(** [np.linalg.norm] of a vector of two components. *)
Definition norm (v : point) : float :=
  PrimFloat.sqrt (fst v * fst v + snd v * snd v).

(** [np.isclose(a, b, atol=atol)] with numpy's default [rtol]:
    [(|a - b| <= atol + rtol * |b|) & isfinite(b) | (a == b)]. *)
Definition rtol : float := 1e-5.

Definition isclose (a b atol : float) : bool :=
  (PrimFloat.abs (a - b) <=? atol + rtol * PrimFloat.abs b)
    && PrimFloat.is_finite b
  || (a =? b).

(** numpy's [maximum]: the first argument unless the second is larger,
    and [nan] as soon as one of them is. *)
Definition maximum (a b : float) : float :=
  if PrimFloat.is_nan a || (b <=? a) then a else b.

(** [np.max] of a flat buffer; [ValueError] on an empty one. *)
Definition amax (l : list float) : result float :=
  match l with
  | [] => Raise ValueError
  | x :: l' => Ok (fold_left maximum l' x)
  end.

(** [np.argmax] of a flat buffer: the scan of numpy's [DOUBLE_argmax].
    [mp] is the running maximum found at index [best]; [i] is the index
    of the head of the remaining buffer.  An element replaces the maximum
    when [not (x <= mp)], and a [nan] ends the scan. *)
Fixpoint argmax_scan (l : list float) (i : nat) (mp : float) (best : nat)
  : nat :=
  match l with
  | [] => best
  | x :: l' =>
      if x <=? mp then argmax_scan l' (S i) mp best
      else if PrimFloat.is_nan x then i
      else argmax_scan l' (S i) x i
  end.

Definition argmax (l : list float) : result nat :=
  match l with
  | [] => Raise ValueError
  | x :: l' =>
      if PrimFloat.is_nan x then Ok 0%nat
      else Ok (argmax_scan l' 1%nat x 0%nat)
  end.

(** A Python [int] as a [float64]. *)
Definition of_Z (z : Z) : float :=
  match z with
  | Z0 => 0
  | Zpos _ => PrimFloat.of_uint63 (Uint63.of_Z z)
  | Zneg p => - PrimFloat.of_uint63 (Uint63.of_Z (Zpos p))
  end.

(** [np.arange(0, stop, step)] on Python ints:
    [ceil(stop / step)] values [0, step, 2*step, ...]. *)
Definition arange (stop step : Z) : result (list Z) :=
  if (step =? 0)%Z then Raise ZeroDivisionError
  else
    let len := Z.to_nat (- ((- stop) / step))%Z in
    Ok (map (fun i => (Z.of_nat i * step)%Z) (seq 0 len)).

(** A two-dimensional array: its shape and its row-major buffer. *)
Record ndarray (A : Type) : Type := mk_ndarray {
  rows : nat;
  cols : nat;
  data : list A
}.
Arguments mk_ndarray {A} rows cols data.
Arguments rows {A} n.
Arguments cols {A} n.
Arguments data {A} n.

(** [np.meshgrid(xs, ys)]: both of shape [(len(ys), len(xs))]; the first
    repeats [xs] along every row, the second holds [ys[i]] on row [i]. *)
Definition meshgrid {A} (xs ys : list A) : ndarray A * ndarray A :=
  (mk_ndarray (length ys) (length xs) (flat_map (fun _ => xs) ys),
   mk_ndarray (length ys) (length xs)
     (flat_map (fun y => map (fun _ => y) xs) ys)).

(** [np.unravel_index(k, shape)] *)
Definition unravel_index {A} (k : nat) (a : ndarray A) : nat * nat :=
  (Nat.div k (cols a), Nat.modulo k (cols a)).

(** [a[i, j]] *)
Definition at_index {A} (a : ndarray A) (ij : nat * nat) : result A :=
  if (Nat.ltb (fst ij) (rows a) && Nat.ltb (snd ij) (cols a))%bool then
    match nth_error (data a) (fst ij * cols a + snd ij) with
    | Some x => Ok x
    | None => Raise IndexError
    end
  else Raise IndexError.

(** *** Vocabulary of the properties *)


End Np.

(** ** Iterative trilateration *)

Module Trilateration.

#[local] Open Scope float_scope.

(** [OfflineLocalization.__init__(self, tolerance=1e-2)] *)
Definition default_tolerance : float := 1e-2.

(** Python's [max(0, v)]: [v] when [v > 0], else the first argument. *)
Definition max0 (v : float) : float := if 0 <? v then v else 0.

(** The guard of [circle_intersection]:
    [d > r1 + r2 or d < abs(r1 - r2) or d == 0]. *)
Definition no_intersection (d r1 r2 : float) : bool :=
  (r1 + r2 <? d) || (d <? PrimFloat.abs (r1 - r2)) || (d =? 0).

(** *** What the solver takes from Python and numpy *)

(** A stable sort by distance that compares with [<] only: each element
    is put in front of the already sorted rest of the list, behind the
    elements of strictly smaller distance.  On distances that [<] orders
    totally (no [nan]) every stable ascending sort returns this list. *)
Fixpoint insert_by_distance (x : node * float) (l : list (node * float))
  : list (node * float) :=
  match l with
  | [] => [x]
  | y :: l' =>
      if snd y <? snd x then y :: insert_by_distance x l' else x :: l
  end.

Definition sorted_by_distance (l : list (node * float))
  : list (node * float) :=
  fold_right insert_by_distance [] l.

(** No distance of the list is [nan]. *)
Definition comparable (l : list (node * float)) : Prop :=
  Forall (fun x => PrimFloat.is_nan (snd x) = false) l.

(** The solver squares with [**] and sorts with [sorted]; what these
    return is the business of the interpreter, of numpy and of the C
    library, and the solver is stated over all of them.

    - [float_pow2 r] is [r ** 2] for a distance [r] of the dictionary.
      The value is the C library's [pow(r, 2.0)].  For a Python [float]
      whose square overflows, [**] raises [OverflowError]; for a
      [numpy.float64] it returns [inf].
    - [float64_pow2 x] is [x ** 2] for a [numpy.float64] [x] (the [d] and
      the [a] of [circle_intersection]), which raises nothing.
    - [sorted l] is [sorted(l, key=lambda x: x[1])]. *)
Class Runtime : Type := {
  float_pow2 : float -> result float;
  float64_pow2 : float -> float;
  sorted : list (node * float) -> list (node * float)
}.

(** What Python guarantees of [sorted]: the result is a rearrangement of
    the list, whatever the comparisons answer, and it is the stable
    ascending sort when the keys can be compared (without [nan]; with a
    [nan] among the keys the order depends on the sorting algorithm). *)
Class Sorts (R : Runtime) : Prop := {
  sorted_permutation : forall l, Permutation l (sorted l);
  sorted_stable : forall l, comparable l -> sorted l = sorted_by_distance l
}.

(** The runtime with which statements on concrete inputs are evaluated.
    The distances are Python [float]s: [r ** 2] raises [OverflowError]
    when the square of a finite [r] is infinite.  Squares are rounded to
    nearest, which is what [pow] returns when the square is a binary64
    number, and lists are sorted by insertion, which is Python's order
    for lists without [nan]. *)
#[export] Instance reference : Runtime := {|
  float_pow2 r :=
    if PrimFloat.is_finite r && PrimFloat.is_infinity (r * r)
    then Raise OverflowError
    else Ok (r * r);
  float64_pow2 x := x * x;
  sorted := sorted_by_distance
|}.

Section Solver.

Context {R : Runtime}.

(** [circle_intersection(p1, r1, p2, r2)]; [None] is the code's
    [(None, None)].  [r1] and [r2] are distances of the dictionary, [d]
    and [a] are [numpy.float64]. *)
Definition circle_intersection (p1 : point) (r1 : float) (p2 : point)
  (r2 : float) : result (option (point * point)) :=
  let d := Np.norm (Np.vsub p1 p2) in
  if no_intersection d r1 r2 then Ok None
  else
    r1_2 <- float_pow2 r1 ;;
    r2_2 <- float_pow2 r2 ;;
    let a := (r1_2 - r2_2 + float64_pow2 d) / (2 * d) in
    r1_2' <- float_pow2 r1 ;;
    let h := PrimFloat.sqrt (max0 (r1_2' - float64_pow2 a)) in
    let mid := Np.vadd p1 (Np.vdiv (Np.vscale a (Np.vsub p2 p1)) d) in
    let offset :=
      Np.vscale h (- (snd p2 - snd p1) / d, (fst p2 - fst p1) / d) in
    Ok (Some (Np.vadd mid offset, Np.vsub mid offset)).

(** The fallback of [trilaterate]: [(p3a + p3b) / 2]. *)
Definition midpoint (p3a p3b : point) : point :=
  Np.vdiv (Np.vadd p3a p3b) 2.

(** [trilaterate(p1, p2, p4, d1, d2, d4)] *)
Definition trilaterate (tolerance : float) (p1 p2 p4 : point)
  (d1 d2 d4 : float) : result (option point) :=
  c <- circle_intersection p1 d1 p2 d2 ;;
  match c with
  | None => Ok None
  | Some (p3a, p3b) =>
      let d3a := Np.norm (Np.vsub p4 p3a) in
      let d3b := Np.norm (Np.vsub p4 p3b) in
      if Np.isclose d3a d4 tolerance then Ok (Some p3a)
      else if Np.isclose d3b d4 tolerance then Ok (Some p3b)
      else Ok (Some (midpoint p3a p3b))
  end.

(** *** [locate_other_vehicles] *)

(** [distances.get((id2, k), distances.get((k, id2)))]: the entry of the
    pair in the direction [(id2, k)] when there is one, else the entry in
    the direction [(k, id2)]. *)
Definition get_either (distances : distance_map) (id2 k : node)
  : option float :=
  match Py.get edge_eqb distances (id2, k) with
  | Some d => Some d
  | None => Py.get edge_eqb distances (k, id2)
  end.

(** The list comprehension under [sorted]: for every key [k] of
    [known_positions], in the order of the dictionary, with
    [(id2, k) in distances or (k, id2) in distances], the pair of [k] and
    the distance.  (Under that test [get_either] finds an entry.) *)
Definition known_neighbors (known_positions : @Py.dict node point)
  (distances : distance_map) (id2 : node) : list (node * float) :=
  flat_map
    (fun k =>
       if Py.mem edge_eqb distances (id2, k)
          || Py.mem edge_eqb distances (k, id2)
       then match get_either distances id2 k with
            | Some d => [(k, d)]
            | None => []
            end
       else [])
    (Py.keys known_positions).

(** [neighbors = sorted([...], key=lambda x: x[1])] *)
Definition neighbors (known_positions : @Py.dict node point)
  (distances : distance_map) (id2 : node) : list (node * float) :=
  sorted (known_neighbors known_positions distances id2).

(** The variables of one pass of the [while] loop.  [known_positions] is
    the dictionary object the caller passed: the function holds no copy
    of it, so this component is what the caller's dictionary contains. *)
Record pass_state : Type := mk_pass {
  known_positions : @Py.dict node point;
  estimated_positions : @Py.dict node point;
  progress_made : bool;
  pending_nodes : list node
}.

(** The body of [for (id1, id2), d in distances.items()]. *)
Definition visit_edge (tolerance : float) (distances : distance_map)
  (st : pass_state) (item : edge * float) : result pass_state :=
  let id1 := fst (fst item) in
  let id2 := snd (fst item) in
  let known := known_positions st in
  if Py.mem Z.eqb known id1 && negb (Py.mem Z.eqb known id2) then
    let nbrs := neighbors known distances id2 in
    match nbrs with
    | (p1_id, d1) :: (p2_id, d2) :: (p4_id, d4) :: _ =>
        p1 <- Py.item Z.eqb known p1_id ;;
        p2 <- Py.item Z.eqb known p2_id ;;
        p4 <- Py.item Z.eqb known p4_id ;;
        estimated <- trilaterate tolerance p1 p2 p4 d1 d2 d4 ;;
        match estimated with
        | Some estimated_p =>
            Ok (mk_pass (Py.set Z.eqb known id2 estimated_p)
                  (Py.set Z.eqb (estimated_positions st) id2 estimated_p)
                  true
                  (pending_nodes st))
        | None => Ok st
        end
    | _ =>
        (* len(neighbors) < 3 *)
        Ok (mk_pass known (estimated_positions st) (progress_made st)
              (pending_nodes st ++ [id2]))
    end
  else Ok st.

(** One pass: [progress_made = False], [pending_nodes = []], then the
    [for] loop over [distances.items()]. *)
Definition run_pass (tolerance : float) (distances : distance_map)
  (known estimated : @Py.dict node point) : result pass_state :=
  Py.for_each (visit_edge tolerance distances) distances
    (mk_pass known estimated false []).

(** The variables that live across passes. *)
Record loop_state : Type := mk_loop {
  loop_known : @Py.dict node point;
  loop_estimated : @Py.dict node point;
  iteration_count : nat
}.

(** How an iteration of the [while] loop ends: at its last statement, so
    that the loop condition is tested again, or at a [break]. *)
Inductive control : Type :=
| Again (st : loop_state)
| Break (st : loop_state).

(** The body of the [while] loop. *)
Definition loop_body (tolerance : float) (distances : distance_map)
  (max_iterations : nat) (st : loop_state) : result control :=
  ps <- run_pass tolerance distances (loop_known st) (loop_estimated st) ;;
  let st' := mk_loop (known_positions ps) (estimated_positions ps)
               (S (iteration_count st)) in
  if Nat.ltb max_iterations (iteration_count st') then Ok (Break st')
  else if negb (progress_made ps)
          && negb (Nat.eqb (length (pending_nodes ps)) 0)
  then Ok (Again st')   (* retrying pending nodes *)
  else if negb (progress_made ps) then Ok (Break st')
  else Ok (Again st').

(** [while len(estimated_positions) < len(unknown_nodes): ...] run for at
    most [fuel] iterations; [None] when the fuel is spent before the loop
    has ended. *)
Fixpoint while_loop (fuel : nat) (tolerance : float)
  (distances : distance_map) (n_unknown max_iterations : nat)
  (st : loop_state) : option (result loop_state) :=
  if Nat.ltb (length (loop_estimated st)) n_unknown then
    match fuel with
    | O => None
    | S fuel' =>
        match loop_body tolerance distances max_iterations st with
        | Raise e => Some (Raise e)
        | Ok (Break st') => Some (Ok st')
        | Ok (Again st') =>
            while_loop fuel' tolerance distances n_unknown max_iterations
              st'
        end
    end
  else Some (Ok st).

(** [len(unknown_nodes)] and [max_iterations]. *)
Definition n_unknown (known : @Py.dict node point)
  (distances : distance_map) : nat :=
  length (unknown_nodes known distances).

Definition max_iterations (known : @Py.dict node point)
  (distances : distance_map) : nat :=
  (n_unknown known distances * n_unknown known distances)%nat.

(** [locate_other_vehicles(known_positions, distances)] with the loop
    bounded by [fuel].  The final [loop_state] holds the returned
    [estimated_positions], the caller's [known_positions] as the call
    leaves it, and the number of passes made. *)
Definition locate_other_vehicles_within (fuel : nat) (tolerance : float)
  (known : @Py.dict node point) (distances : distance_map)
  : option (result loop_state) :=
  while_loop fuel tolerance distances (n_unknown known distances)
    (max_iterations known distances) (mk_loop known [] 0).

(** The loop never needs more than [max_iterations + 1] iterations, which
    makes this the function itself. *)
Definition locate_other_vehicles (tolerance : float)
  (known : @Py.dict node point) (distances : distance_map)
  : option (result loop_state) :=
  locate_other_vehicles_within (S (max_iterations known distances))
    tolerance known distances.

(** *** Vocabulary of the properties *)

Definition state_of (c : control) : loop_state :=
  match c with Again st => st | Break st => st end.

Definition is_break (c : control) : bool :=
  match c with Again _ => false | Break _ => true end.

(** What the body of the [for] loop does to the variables when it
    completes: nothing, or it defers the node, or it writes one new key,
    last, into [known_positions] and the same entry into
    [estimated_positions]. *)
Inductive edge_effect (st : pass_state) (id1 id2 : node)
  : pass_state -> Prop :=
| effect_skip : edge_effect st id1 id2 st
| effect_defer :
    edge_effect st id1 id2
      (mk_pass (known_positions st) (estimated_positions st)
         (progress_made st) (pending_nodes st ++ [id2]))
| effect_estimate (p : point) :
    Py.mem Z.eqb (known_positions st) id1 = true ->
    Py.get Z.eqb (known_positions st) id2 = None ->
    edge_effect st id1 id2
      (mk_pass (known_positions st ++ [(id2, p)])
         (Py.set Z.eqb (estimated_positions st) id2 p)
         true (pending_nodes st)).

(** [known_positions] is the caller's dictionary as it was passed,
    followed by the entries of [estimated_positions], whose keys are
    distinct nodes of [unknown_nodes]. *)
Definition grows_from (known0 : @Py.dict node point)
  (distances : distance_map) (known est : @Py.dict node point) : Prop :=
  known = known0 ++ est
  /\ NoDup (Py.keys est)
  /\ incl (Py.keys est) (unknown_nodes known0 distances).

(** The states in which a run of [locate_other_vehicles] on
    [known0] and [distances] reaches the head of the [while] loop. *)
Inductive loop_head (tolerance : float) (known0 : @Py.dict node point)
  (distances : distance_map) : loop_state -> Prop :=
| head_start : loop_head tolerance known0 distances (mk_loop known0 [] 0)
| head_again st st' :
    loop_head tolerance known0 distances st ->
    Nat.ltb (length (loop_estimated st)) (n_unknown known0 distances) = true ->
    loop_body tolerance distances (max_iterations known0 distances) st
    = Ok (Again st') ->
    loop_head tolerance known0 distances st'.

(** The exception [e] comes from squaring a distance of the dictionary. *)
Definition raised_by_square (distances : distance_map) (e : exn) : Prop :=
  exists key d, In (key, d) distances /\ float_pow2 d = Raise e.

End Solver.

(** The distance map with the pair [(i, j)] materialised as [(j, i)]
    instead, at the same place and with the same distance. *)
Definition flip_edge (i j : node) (distances : distance_map)
  : distance_map :=
  map (fun kv => if edge_eqb (fst kv) (i, j) then ((j, i), snd kv) else kv)
    distances.



End Trilateration.

(** ** Grid belief propagation *)

(** [scipy.stats.norm.pdf]: the Gaussian density
    [exp(-z**2 / 2) / sqrt(2 * pi) / scale] at [z = (x - loc) / scale].
    The solver is stated over any density function; this one is used where
    a statement is evaluated on concrete inputs.  The primitive floats have
    no exponential: [exp] below reduces its argument by [2 ** 12], sums the
    Taylor series and squares the result twelve times, which is accurate to
    about twelve digits, and, as the C library's [exp] does, returns [0]
    below the underflow threshold of binary64. *)
Module Scipy.

#[local] Open Scope float_scope.

Fixpoint taylor_exp (n : nat) (k : float) (term acc r : float) : float :=
  match n with
  | O => acc
  | S n' =>
      let term' := term * r / k in
      taylor_exp n' (k + 1) term' (acc + term') r
  end.

Fixpoint square_times (n : nat) (y : float) : float :=
  match n with
  | O => y
  | S n' => square_times n' (y * y)
  end.

Definition exp (x : float) : float :=
  if x <? -746 then 0
  else if 710 <? x then PrimFloat.infinity
  else square_times 12 (taylor_exp 12 1 1 1 (x / 4096)).

Definition norm_pdf_C : float := PrimFloat.sqrt (2 * 0x1.921fb54442d18p+1).

Definition norm_pdf (x loc scale : float) : float :=
  let z := (x - loc) / scale in
  exp (- (z * z) / 2) / norm_pdf_C / scale.

End Scipy.

Module BeliefPropagation.

#[local] Open Scope float_scope.

(** [OfflineLocalization.__init__(self, grid_size=1, area_size=100,
    noise_std=0.5)]; the grid parameters are Python ints, as the defaults
    are. *)
Record config : Type := mk_config {
  grid_size : Z;
  area_size : Z;
  noise_std : float
}.

Definition default_config : config := mk_config 1 100 0.5.

(** The grid output: entries of the integer arrays [grid_x], [grid_y]. *)
Definition cell : Type := (Z * Z)%type.

(** [initialize_belief_grid]: [grid_x], [grid_y] and the buffer of
    [np.ones(grid_x.shape)]. *)
Definition initialize_belief_grid (cfg : config)
  : result (Np.ndarray Z * Np.ndarray Z * list float) :=
  xs <- Np.arange (area_size cfg) (grid_size cfg) ;;
  ys <- Np.arange (area_size cfg) (grid_size cfg) ;;
  let g := Np.meshgrid xs ys in
  Ok (fst g, snd g, map (fun _ => 1) (Np.data (fst g))).

(** The neighbours the comprehension of [belief_propagation] goes through:
    for every key [(a, b)] of [distances] with [node in (a, b)], the other
    end [a if node == b else b], when it is a key of [known_positions]. *)
Definition known_ends (known_positions : @Py.dict node point)
  (distances : distance_map) (u : node) : list node :=
  flat_map
    (fun kv =>
       let a := fst (fst kv) in
       let b := snd (fst kv) in
       if (u =? a)%Z || (u =? b)%Z then
         let nbr := if (u =? b)%Z then a else b in
         if Py.mem Z.eqb known_positions nbr then [nbr] else []
       else [])
    distances.

(** The comprehension itself: its element
    [(nbr, known_positions[nbr], distances[(node, nbr)])] subscripts
    [distances] in the direction [(node, nbr)] only. *)
Definition measurements (known_positions : @Py.dict node point)
  (distances : distance_map) (u : node)
  : result (list (node * point * float)) :=
  Py.comprehension
    (fun nbr =>
       nbr_pos <- Py.item Z.eqb known_positions nbr ;;
       d <- Py.item edge_eqb distances (u, nbr) ;;
       Ok (nbr, nbr_pos, d))
    (known_ends known_positions distances u).

(** [np.linalg.norm(np.column_stack((grid_x.ravel(), grid_y.ravel()))
    - nbr_pos, axis=1)] *)
Definition dist_map (grid_x grid_y : Np.ndarray Z) (nbr_pos : point)
  : list float :=
  map (fun xy => Np.norm (Np.vsub (Np.of_Z (fst xy), Np.of_Z (snd xy))
                            nbr_pos))
    (combine (Np.data grid_x) (Np.data grid_y)).

Section Solver.

(** [norm.pdf(x, loc, scale)] *)
Variable pdf : float -> float -> float -> float.
Variable cfg : config.

(** [belief *= norm.pdf(dist_map, loc=d, scale=self.noise_std)] *)
Definition update_belief (grid_x grid_y : Np.ndarray Z)
  (belief : list float) (m : node * point * float) : list float :=
  map (fun bd => fst bd * pdf (snd bd) (snd m) (noise_std cfg))
    (combine belief (dist_map grid_x grid_y (snd (fst m)))).

(** The belief surface of a node after the loop over its neighbours. *)
Definition accumulated_belief (known_positions : @Py.dict node point)
  (distances : distance_map) (u : node) : result (list float) :=
  g <- initialize_belief_grid cfg ;;
  ms <- measurements known_positions distances u ;;
  Ok (fold_left (update_belief (fst (fst g)) (snd (fst g))) ms (snd g)).

(** [belief /= np.max(belief)] *)
Definition normalize (belief : list float) : result (list float) :=
  m <- Np.amax belief ;;
  Ok (map (fun b => b / m) belief).

(** The body of [for node in unknown_nodes]: the value stored at
    [estimated_positions[node]]. *)
Definition estimate_node (known_positions : @Py.dict node point)
  (distances : distance_map) (u : node) : result cell :=
  g <- initialize_belief_grid cfg ;;
  belief <- accumulated_belief known_positions distances u ;;
  belief' <- normalize belief ;;
  k <- Np.argmax belief' ;;
  let max_idx := Np.unravel_index k (fst (fst g)) in
  x <- Np.at_index (fst (fst g)) max_idx ;;
  y <- Np.at_index (snd (fst g)) max_idx ;;
  Ok (x, y).

(** [belief_propagation] with the iteration order of the Python set
    [unknown_nodes] given as a list. *)
Definition belief_propagation_over (order : list node)
  (known_positions : @Py.dict node point) (distances : distance_map)
  : result (@Py.dict node cell) :=
  Py.for_each
    (fun est u =>
       p <- estimate_node known_positions distances u ;;
       Ok (Py.set Z.eqb est u p))
    order [].

(** [belief_propagation(known_positions, distances)], which
    [locate_other_vehicles] wraps. *)
Definition belief_propagation (known_positions : @Py.dict node point)
  (distances : distance_map) : result (@Py.dict node cell) :=
  belief_propagation_over (unknown_nodes known_positions distances)
    known_positions distances.

Definition locate_other_vehicles := belief_propagation.

End Solver.

End BeliefPropagation.

(** ** The network simulator

    [simulator/network_simulator.py].  The module [random] is the only
    input of the simulator: its draws are given by a [random_source], the
    values that the successive calls return.  Plotting is not modelled. *)

Module NetworkSimulator.

#[local] Open Scope float_scope.

Record random_source : Type := mk_random {
  (** the i-th call of [random.uniform(0, self.area_size)] *)
  uniform : nat -> float;
  (** [random.sample(range(self.num_vehicles), self.num_anchors)] *)
  sample : list node;
  (** the i-th call of [random.choice], on its argument *)
  choice : nat -> list node -> node
}.

(** [range(a, b)] *)
Definition range (a b : nat) : list node := map Z.of_nat (seq a (b - a)).

(** The attributes of a [NetworkSimulator]. *)
Record simulator : Type := mk_simulator {
  num_vehicles : nat;
  comm_range : float;
  vehicle_positions : @Py.dict node point;
  edges : distance_map;
  anchors : @Py.dict node point
}.

(** [_generate_vehicle_positions]: the dictionary comprehension over
    [range(self.num_vehicles)], two draws for each vehicle. *)
Definition _generate_vehicle_positions (rnd : random_source) (n : nat)
  : @Py.dict node point :=
  map (fun i => (Z.of_nat i, (uniform rnd (2 * i), uniform rnd (2 * i + 1))))
    (seq 0 n).

(** [_distance(pos1, pos2)] *)
Definition _distance (pos1 pos2 : point) : float :=
  Np.norm (Np.vsub pos1 pos2).

(** [self.edges[(i, j)] = d; self.edges[(j, i)] = d] *)
Definition add_edge (edges : distance_map) (i j : node) (d : float)
  : distance_map :=
  Py.set edge_eqb (Py.set edge_eqb edges (i, j) d) (j, i) d.

(** [_generate_edges]: the two nested loops. *)
Definition _generate_edges (positions : @Py.dict node point) (n : nat)
  (comm_range : float) : result distance_map :=
  Py.for_each
    (fun edges i =>
       Py.for_each
         (fun edges j =>
            pi <- Py.item Z.eqb positions (Z.of_nat i) ;;
            pj <- Py.item Z.eqb positions j ;;
            let d := _distance pi pj in
            if d <=? comm_range then Ok (add_edge edges (Z.of_nat i) j d)
            else Ok edges)
         (range (i + 1) n) edges)
    (seq 0 n) [].

(** [_select_anchors]: the positions of the sampled nodes. *)
Definition _select_anchors (rnd : random_source)
  (positions : @Py.dict node point) : result (@Py.dict node point) :=
  Py.for_each
    (fun anchors nd =>
       p <- Py.item Z.eqb positions nd ;;
       Ok (Py.set Z.eqb anchors nd p))
    (sample rnd) [].

(** [get_neighbors(node)] *)
Definition get_neighbors (n : nat) (edges : distance_map) (nd : node)
  : list node :=
  filter
    (fun m => Py.mem edge_eqb edges (nd, m) || Py.mem edge_eqb edges (m, nd))
    (range 0 n).

(** [list(set(range(n)) - {node} - set(self.get_neighbors(node)))]; the
    order of the list is that of the range. *)
Definition potential_neighbors (n : nat) (edges : distance_map) (nd : node)
  : list node :=
  filter
    (fun m =>
       negb (m =? nd)%Z
       && negb (existsb (Z.eqb m) (get_neighbors n edges nd)))
    (range 0 n).

(** The [while] loop of [ensure_full_connectivity] for one node, run for
    at most [fuel] iterations ([None] when the fuel is spent first); the
    state is the edge dictionary and the number of calls of
    [random.choice] made so far. *)
Fixpoint connect_node (fuel : nat) (rnd : random_source)
  (positions : @Py.dict node point) (n : nat) (nd : node)
  (st : distance_map * nat) : option (result (distance_map * nat)) :=
  if Nat.ltb (length (get_neighbors n (fst st) nd)) 3 then
    match fuel with
    | O => None
    | S fuel' =>
        match potential_neighbors n (fst st) nd with
        | [] => Some (Ok st)     (* break *)
        | potential =>
            let new_neighbor := choice rnd (snd st) potential in
            match Py.item Z.eqb positions nd with
            | Raise e => Some (Raise e)
            | Ok p1 =>
                match Py.item Z.eqb positions new_neighbor with
                | Raise e => Some (Raise e)
                | Ok p2 =>
                    connect_node fuel' rnd positions n nd
                      (add_edge (fst st) nd new_neighbor (_distance p1 p2),
                       S (snd st))
                end
            end
        end
    end
  else Some (Ok st).

(** [ensure_full_connectivity]: the [for] loop over the nodes.  Each
    iteration of the inner loop adds a neighbour, so three of them are
    enough. *)
Fixpoint connect_nodes (rnd : random_source)
  (positions : @Py.dict node point) (n : nat) (nodes : list node)
  (st : distance_map * nat) : option (result (distance_map * nat)) :=
  match nodes with
  | [] => Some (Ok st)
  | nd :: nodes' =>
      match connect_node 3 rnd positions n nd st with
      | None => None
      | Some (Raise e) => Some (Raise e)
      | Some (Ok st') => connect_nodes rnd positions n nodes' st'
      end
  end.

Definition ensure_full_connectivity (rnd : random_source)
  (positions : @Py.dict node point) (n : nat) (edges : distance_map)
  : option (result distance_map) :=
  match connect_nodes rnd positions n (range 0 n) (edges, O) with
  | None => None
  | Some (Raise e) => Some (Raise e)
  | Some (Ok st) => Some (Ok (fst st))
  end.

(** [NetworkSimulator(num_vehicles, comm_range, area_size, num_anchors)]:
    [__init__]. *)
Definition init (rnd : random_source) (n : nat) (comm_range : float)
  : option (result simulator) :=
  let positions := _generate_vehicle_positions rnd n in
  match _generate_edges positions n comm_range with
  | Raise e => Some (Raise e)
  | Ok edges0 =>
      match _select_anchors rnd positions with
      | Raise e => Some (Raise e)
      | Ok anchors =>
          match ensure_full_connectivity rnd positions n edges0 with
          | None => None
          | Some (Raise e) => Some (Raise e)
          | Some (Ok edges1) =>
              Some (Ok (mk_simulator n comm_range positions edges1 anchors))
          end
      end
  end.

(** [get_anchor_positions()] and [get_distances()] *)
Definition get_anchor_positions (sim : simulator) := anchors sim.
Definition get_distances (sim : simulator) := edges sim.

(** *** Vocabulary of the properties *)

(** Both directions of every pair hold the same distance. *)
Definition symmetric (edges : distance_map) : Prop :=
  forall a b, Py.get edge_eqb edges (a, b) = Py.get edge_eqb edges (b, a).

(** What [_generate_edges] keeps true of the dictionary it builds. *)
Definition within_range (n : nat) (comm_range : float)
  (edges : distance_map) : Prop :=
  forall a b d,
    Py.get edge_eqb edges (a, b) = Some d ->
    a <> b /\ In a (range 0 n) /\ In b (range 0 n)
    /\ (d <=? comm_range) = true.

(** [m] is a neighbour of [nd]: the test of [get_neighbors]. *)
Definition linked (edges : distance_map) (nd m : node) : bool :=
  Py.mem edge_eqb edges (nd, m)
  || Py.mem edge_eqb edges (m, nd).

(** Entries are kept, with their distances. *)
Definition extends (edges edges' : distance_map) : Prop :=
  forall e d,
    Py.get edge_eqb edges e = Some d -> Py.get edge_eqb edges' e = Some d.

End NetworkSimulator.

(** ** The evaluation script

    The accuracy computation of [main.py]; plotting and printing are not
    modelled.  The estimates are float tuples (iterative solver) or integer
    arrays (grid solver): [to_point] is the conversion that
    [np.array(estimated_pos)] makes in the subtraction. *)

Module Main.

#[local] Open Scope float_scope.

Definition ACCURACY_THRESHOLD : float := 2.0.

(** The loop [for node_id, actual_pos in actual_positions.items()]: the
    final value of [matched]. *)
Definition count_matched {P : Type} (to_point : P -> point)
  (actual_positions : @Py.dict node point)
  (estimated_positions : @Py.dict node P) : nat :=
  fold_left
    (fun matched kv =>
       match Py.get Z.eqb estimated_positions (fst kv) with
       | Some estimated_pos =>
           let distance :=
             Np.norm (Np.vsub (snd kv) (to_point estimated_pos)) in
           if distance <=? ACCURACY_THRESHOLD then S matched else matched
       | None => matched
       end)
    actual_positions O.

(** [(matched / total_estimated) * 100 if total_estimated > 0 else 0] *)
Definition accuracy {P : Type} (to_point : P -> point)
  (actual_positions : @Py.dict node point)
  (estimated_positions : @Py.dict node P) : float :=
  let matched := count_matched to_point actual_positions estimated_positions in
  let total_estimated := length estimated_positions in
  if Nat.ltb 0 total_estimated then
    Np.of_Z (Z.of_nat matched) / Np.of_Z (Z.of_nat total_estimated) * 100
  else 0.

End Main.

(** ** The sample algorithm

    [student_algorithms/sample_algorithm.py].  The calls of
    [random.uniform(-5, 5)] return the successive values of [uniform]. *)

Module SampleAlgorithm.

#[local] Open Scope float_scope.

(** The body of the loop over [distances.items()]; the state is the
    dictionary and the number of draws made. *)
Definition guess (uniform : nat -> float) (car_id : node)
  (st : @Py.dict node point * nat) (item : edge * float)
  : @Py.dict node point * nat :=
  let i := fst (fst item) in
  let j := snd (fst item) in
  let dist := snd item in
  if (i =? car_id)%Z || (j =? car_id)%Z then
    let other_car := if (i =? car_id)%Z then j else i in
    (Py.set Z.eqb (fst st) other_car
       (dist + uniform (snd st), dist + uniform (S (snd st))),
     S (S (snd st)))
  else st.

(** [VehicleLocalization.locate_other_vehicles(car_id, distances,
    other_data)] *)
Definition locate_other_vehicles (uniform : nat -> float) (car_id : node)
  (distances : distance_map) : @Py.dict node point :=
  fst (fold_left (guess uniform car_id) distances ([], O)).

End SampleAlgorithm.


(** * Properties *)

(** ** Dictionaries *)

Module PyFacts.

Section ZDict.
Context {V : Type}.
Implicit Types (d : @Py.dict node V) (k : node) (v : V).

Lemma get_app d1 d2 k :
  Py.get Z.eqb (d1 ++ d2) k =
  match Py.get Z.eqb d1 k with
  | Some v => Some v
  | None => Py.get Z.eqb d2 k
  end.
Proof.
  induction d1 as [|[k' v'] d1 IH]; simpl; [reflexivity|].
  destruct (Z.eqb k' k); [reflexivity | exact IH].
Qed.

Lemma set_absent d k v :
  Py.get Z.eqb d k = None -> Py.set Z.eqb d k v = d ++ [(k, v)].
Proof.
  induction d as [|[k' v'] d IH]; simpl; intros H; [reflexivity|].
  destruct (Z.eqb k' k); [discriminate|].
  now rewrite IH.
Qed.

Lemma get_None_not_In d k :
  Py.get Z.eqb d k = None <-> ~ In k (Py.keys d).
Proof.
  induction d as [|[k' v'] d IH]; simpl.
  - split; [intros _ [] | reflexivity].
  - destruct (Z.eqb_spec k' k) as [->|Hne].
    + split; [discriminate | intros H; exfalso; apply H; now left].
    + rewrite IH. split; intros H; [intros [E|I]; auto | auto].
Qed.

Lemma get_In d k : In k (Py.keys d) -> exists v, Py.get Z.eqb d k = Some v.
Proof.
  intros H. destruct (Py.get Z.eqb d k) as [v|] eqn:E; [now exists v|].
  apply get_None_not_In in E. contradiction.
Qed.

Lemma mem_false_get d k :
  Py.mem Z.eqb d k = false -> Py.get Z.eqb d k = None.
Proof. unfold Py.mem. now destruct (Py.get Z.eqb d k). Qed.

Lemma mem_true_In d k : Py.mem Z.eqb d k = true <-> In k (Py.keys d).
Proof.
  unfold Py.mem. destruct (Py.get Z.eqb d k) eqn:E.
  - split; [intros _|reflexivity].
    destruct (in_dec Z.eq_dec k (Py.keys d)) as [I|N]; [exact I|].
    apply get_None_not_In in N. congruence.
  - split; [discriminate|]. intros I. apply get_None_not_In in E.
    contradiction.
Qed.

Lemma get_set_same d k v : Py.get Z.eqb (Py.set Z.eqb d k v) k = Some v.
Proof.
  induction d as [|[k' v'] d IH]; simpl.
  - now rewrite Z.eqb_refl.
  - destruct (Z.eqb k' k) eqn:E; simpl; rewrite E; [reflexivity | exact IH].
Qed.

Lemma get_set_other d k k' v :
  k <> k' -> Py.get Z.eqb (Py.set Z.eqb d k v) k' = Py.get Z.eqb d k'.
Proof.
  intros Hne. induction d as [|[k0 v0] d IH]; simpl.
  - destruct (Z.eqb_spec k k'); [contradiction | reflexivity].
  - destruct (Z.eqb_spec k0 k) as [->|N]; simpl.
    + destruct (Z.eqb_spec k k'); [contradiction | reflexivity].
    + now rewrite IH.
Qed.

Lemma keys_app d1 d2 : Py.keys (d1 ++ d2) = Py.keys d1 ++ Py.keys d2.
Proof. apply map_app. Qed.

End ZDict.

(** A value found in a dictionary is the value of one of its entries. *)
Lemma get_value_In {K V} (eqb : K -> K -> bool) (d : @Py.dict K V) k v :
  Py.get eqb d k = Some v -> exists k', In (k', v) d.
Proof.
  induction d as [|[k0 v0] d IH]; simpl; [discriminate|].
  destruct (eqb k0 k).
  - intros [= ->]. exists k0. now left.
  - intros H. destruct (IH H) as [k' Hk']. exists k'. now right.
Qed.

(** A loop whose body may raise: an invariant of the body holds when the
    loop completes, and what the loop raises was raised by the body in a
    state of the invariant. *)
Lemma for_each_cases {A S} (P : S -> Prop) (Q : exn -> Prop)
  (body : S -> A -> result S) (l : list A) :
  (forall s x s', In x l -> P s -> body s x = Ok s' -> P s') ->
  (forall s x e, In x l -> P s -> body s x = Raise e -> Q e) ->
  forall s, P s ->
  match Py.for_each body l s with
  | Ok s' => P s'
  | Raise e => Q e
  end.
Proof.
  induction l as [|x l IH]; intros Hok Hraise s HP; simpl; [exact HP|].
  destruct (body s x) as [s1|e] eqn:E; simpl.
  - apply IH.
    + intros s0 y s0' Hy. apply Hok. now right.
    + intros s0 y e Hy. apply Hraise. now right.
    + apply (Hok s x s1); auto. now left.
  - apply (Hraise s x e); auto. now left.
Qed.

(** A sequence of statements that cannot raise. *)
Lemma for_each_total {A S} (body : S -> A -> result S) (l : list A) :
  (forall s x, exists s', body s x = Ok s') ->
  forall s, exists s', Py.for_each body l s = Ok s'.
Proof.
  intros Hb. induction l as [|x l IH]; intros s; simpl.
  - now exists s.
  - destruct (Hb s x) as [s1 ->]. simpl. apply IH.
Qed.

(** An invariant of the loop body is an invariant of the loop. *)
Lemma for_each_invariant {A S} (P : S -> Prop) (body : S -> A -> result S)
  (l : list A) :
  (forall s x s', In x l -> P s -> body s x = Ok s' -> P s') ->
  forall s s', P s -> Py.for_each body l s = Ok s' -> P s'.
Proof.
  induction l as [|x l IH]; intros Hb s s' Hs; simpl.
  - intros [= <-]. exact Hs.
  - destruct (body s x) as [s1|e] eqn:E; simpl; [|discriminate].
    apply IH.
    + intros s0 y s0' Hy. apply Hb. now right.
    + apply (Hb s x s1); auto. now left.
Qed.

End PyFacts.

(** ** Floating-point comparisons

    What the proofs need of the binary64 comparisons and of division, read
    off their specification on [spec_float]. *)

Module FloatFacts.

#[local] Open Scope float_scope.

Lemma SFcompare_refl (s : spec_float) :
  s <> S754_nan -> SFcompare s s = Some Eq.
Proof.
  destruct s as [[|]|[|]| |[|] m e]; simpl; try congruence; intros _;
    rewrite Z.compare_refl, Pos.compare_cont_refl; reflexivity.
Qed.

Lemma is_nan_spec (x : float) :
  PrimFloat.is_nan x = true <-> Prim2SF x = S754_nan.
Proof.
  unfold PrimFloat.is_nan. rewrite eqb_spec. unfold SFeqb. split.
  - intros H. destruct (Prim2SF x) eqn:E; try reflexivity;
      rewrite SFcompare_refl in H by congruence; discriminate.
  - intros ->. reflexivity.
Qed.


(** Every comparison with a [nan] is false. *)
Lemma leb_nan_l (x y : float) :
  PrimFloat.is_nan x = true -> (x <=? y) = false.
Proof.
  intros H. apply is_nan_spec in H. rewrite leb_spec, H. reflexivity.
Qed.

Lemma eqb_zero_spec (x : float) :
  (x =? 0) = true -> exists s, Prim2SF x = S754_zero s.
Proof.
  rewrite eqb_spec. change (Prim2SF 0) with (S754_zero false).
  unfold SFeqb.
  destruct (Prim2SF x) as [s|[|]| |[|] m e]; simpl; try discriminate.
  intros _. now exists s.
Qed.

(** [0 / 0] is [nan], whatever the signs of the zeros. *)
Lemma zero_div_zero (x m : float) :
  (x =? 0) = true -> (m =? 0) = true -> PrimFloat.is_nan (x / m) = true.
Proof.
  intros Hx Hm. apply eqb_zero_spec in Hx, Hm.
  destruct Hx as [sx Hx], Hm as [sm Hm].
  apply is_nan_spec. rewrite div_spec, Hx, Hm. reflexivity.
Qed.

(** *** The order of the values that are not [nan] *)
















End FloatFacts.

(** ** numpy reductions *)

Module NpFacts.

Import FloatFacts.
#[local] Open Scope float_scope.

Lemma maximum_cases (a b : float) : Np.maximum a b = a \/ Np.maximum a b = b.
Proof. unfold Np.maximum. destruct (_ || _); auto. Qed.

Lemma fold_maximum_In (l : list float) : forall x,
  fold_left Np.maximum l x = x \/ In (fold_left Np.maximum l x) l.
Proof.
  induction l as [|y l IH]; intros x; simpl; [now left|].
  destruct (IH (Np.maximum x y)) as [E|I]; [|now right; right].
  rewrite E. destruct (maximum_cases x y) as [->| ->]; auto.
Qed.

(** [np.max] returns an element of the buffer. *)
Lemma amax_In (l : list float) (m : float) : Np.amax l = Ok m -> In m l.
Proof.
  destruct l as [|x l]; simpl; [discriminate|]. intros [= <-].
  destruct (fold_maximum_In l x) as [->|I]; auto.
Qed.

(** With a [nan] in the buffer, the scan of [np.argmax] stops on one. *)
Lemma argmax_scan_nan (l : list float) : forall i mp best,
  (exists x, In x l /\ PrimFloat.is_nan x = true) ->
  (i <= Np.argmax_scan l i mp best)%nat
  /\ exists v,
       nth_error l (Np.argmax_scan l i mp best - i) = Some v
       /\ PrimFloat.is_nan v = true.
Proof.
  induction l as [|x l IH]; intros i mp best (y & Hy & Hnan);
    [destruct Hy|].
  simpl. destruct (x <=? mp) eqn:Hle.
  - destruct Hy as [->|Hy];
      [rewrite (leb_nan_l _ _ Hnan) in Hle; discriminate|].
    destruct (IH (S i) mp best) as (Hi & v & Hv & Hvn); [now exists y|].
    split; [lia|]. exists v. split; [|exact Hvn].
    replace (Np.argmax_scan l (S i) mp best - i)%nat
      with (S (Np.argmax_scan l (S i) mp best - S i)) by lia.
    exact Hv.
  - destruct (PrimFloat.is_nan x) eqn:Hx.
    + split; [lia|]. exists x. now rewrite Nat.sub_diag.
    + destruct Hy as [->|Hy]; [congruence|].
      destruct (IH (S i) x i) as (Hi & v & Hv & Hvn); [now exists y|].
      split; [lia|]. exists v. split; [|exact Hvn].
      replace (Np.argmax_scan l (S i) x i - i)%nat
        with (S (Np.argmax_scan l (S i) x i - S i)) by lia.
      exact Hv.
Qed.

Lemma argmax_nan (l : list float) :
  (exists x, In x l /\ PrimFloat.is_nan x = true) ->
  exists k v,
    Np.argmax l = Ok k /\ nth_error l k = Some v
    /\ PrimFloat.is_nan v = true.
Proof.
  destruct l as [|x l]; intros (y & Hy & Hnan); [destruct Hy|].
  simpl. destruct (PrimFloat.is_nan x) eqn:Hx.
  - exists 0%nat, x. auto.
  - destruct Hy as [->|Hy]; [congruence|].
    destruct (argmax_scan_nan l 1 x 0) as (Hi & v & Hv & Hvn);
      [now exists y|].
    exists (Np.argmax_scan l 1 x 0), v. repeat split; auto.
    destruct (Np.argmax_scan l 1 x 0) as [|k]; [lia|].
    simpl in *. now rewrite Nat.sub_0_r in Hv.
Qed.

(** [a[np.unravel_index(k, a.shape)]] is the [k]-th entry of the buffer. *)
Lemma at_index_unravel {A} (a : Np.ndarray A) (k : nat) (x : A) :
  length (Np.data a) = (Np.rows a * Np.cols a)%nat ->
  nth_error (Np.data a) k = Some x ->
  Np.at_index a (Np.unravel_index k a) = Ok x.
Proof.
  intros Hlen Hk.
  assert (Hlt : (k < Np.rows a * Np.cols a)%nat).
  { rewrite <- Hlen. apply nth_error_Some. congruence. }
  assert (Hc : Np.cols a <> 0%nat) by nia.
  unfold Np.at_index, Np.unravel_index. simpl.
  assert (H1 : (k / Np.cols a <? Np.rows a)%nat = true).
  { apply Nat.ltb_lt, Nat.Div0.div_lt_upper_bound. lia. }
  assert (H2 : (k mod Np.cols a <? Np.cols a)%nat = true).
  { apply Nat.ltb_lt, Nat.mod_upper_bound, Hc. }
  rewrite H1, H2. simpl.
  replace (k / Np.cols a * Np.cols a + k mod Np.cols a)%nat with k.
  - now rewrite Hk.
  - rewrite (Nat.div_mod_eq k (Np.cols a)) at 1. lia.
Qed.

Lemma meshgrid_shape {A} (xs ys : list A) (gx gy : Np.ndarray A) :
  Np.meshgrid xs ys = (gx, gy) ->
  length (Np.data gx) = (Np.rows gx * Np.cols gx)%nat
  /\ length (Np.data gy) = (Np.rows gy * Np.cols gy)%nat
  /\ Np.cols gy = Np.cols gx
  /\ length (Np.data gy) = length (Np.data gx).
Proof.
  unfold Np.meshgrid. intros [= <- <-]. simpl.
  assert (H1 : length (flat_map (fun _ : A => xs) ys)
               = (length ys * length xs)%nat).
  { induction ys as [|y ys IH]; simpl; [reflexivity|].
    now rewrite length_app, IH. }
  assert (H2 : length (flat_map (fun y : A => map (fun _ : A => y) xs) ys)
               = (length ys * length xs)%nat).
  { clear H1. induction ys as [|y ys IH]; simpl; [reflexivity|].
    now rewrite length_app, length_map, IH. }
  repeat split; congruence.
Qed.

End NpFacts.

(** ** Trilaterate *)

Module TrilaterateFacts.

Import Trilateration.
#[local] Open Scope float_scope.

Section Generic.

Context {R : Runtime}.



Lemma circle_intersection_Raise p1 r1 p2 r2 e :
  circle_intersection p1 r1 p2 r2 = Raise e ->
  float_pow2 r1 = Raise e \/ float_pow2 r2 = Raise e.
Proof.
  unfold circle_intersection.
  destruct (no_intersection _ r1 r2); [discriminate|].
  destruct (float_pow2 r1) as [v1|e1]; simpl; [|intros [= <-]; auto].
  destruct (float_pow2 r2) as [v2|e2]; simpl; [|intros [= <-]; auto].
  discriminate.
Qed.

(** [trilaterate] raises only what [circle_intersection] raises. *)
Lemma trilaterate_Raise tolerance p1 p2 p4 d1 d2 d4 e :
  trilaterate tolerance p1 p2 p4 d1 d2 d4 = Raise e ->
  float_pow2 d1 = Raise e \/ float_pow2 d2 = Raise e.
Proof.
  unfold trilaterate.
  destruct (circle_intersection p1 d1 p2 d2) as [[[p3a p3b]|]|e'] eqn:E;
    simpl.
  - destruct (Np.isclose _ d4 tolerance);
      [|destruct (Np.isclose _ d4 tolerance)]; discriminate.
  - discriminate.
  - intros [= <-]. now apply circle_intersection_Raise in E.
Qed.


(** C3, as the code has it.  When the circle intersection yields the
    candidates [p3a] and [p3b], a candidate at distance [d] from [p3]
    matches when [np.isclose(d, d3, atol=tolerance)]: the allowed gap is
    [tolerance + 1e-5 * |d3|] (numpy's default relative tolerance comes
    on top of the absolute one).  The first candidate is returned when it
    matches, the second when it matches and the first does not, and
    the midpoint [(p3a + p3b) / 2] when neither does; no case fails. *)
Theorem trilaterate_selection
  (tolerance : float) (p1 p2 p4 : point) (d1 d2 d4 : float)
  (p3a p3b : point) :
  circle_intersection p1 d1 p2 d2 = Ok (Some (p3a, p3b)) ->
  let matches (p : point) :=
    let d := Np.norm (Np.vsub p4 p) in
    (PrimFloat.abs (d - d4) <=? tolerance + 1e-5 * PrimFloat.abs d4)
      && PrimFloat.is_finite d4
    || (d =? d4) in
  (matches p3a = true ->
   trilaterate tolerance p1 p2 p4 d1 d2 d4 = Ok (Some p3a))
  /\ (matches p3a = false -> matches p3b = true ->
      trilaterate tolerance p1 p2 p4 d1 d2 d4 = Ok (Some p3b))
  /\ (matches p3a = false -> matches p3b = false ->
      trilaterate tolerance p1 p2 p4 d1 d2 d4
      = Ok (Some ((fst p3a + fst p3b) / 2, (snd p3a + snd p3b) / 2))).
Proof.
  intros E matches. unfold trilaterate. rewrite E. simpl.
  change (Np.isclose (Np.norm (Np.vsub p4 p3a)) d4 tolerance)
    with (matches p3a).
  change (Np.isclose (Np.norm (Np.vsub p4 p3b)) d4 tolerance)
    with (matches p3b).
  repeat split.
  - intros ->. reflexivity.
  - intros -> ->. reflexivity.
  - intros -> ->. reflexivity.
Qed.

End Generic.

(** The disjoint case of the specification: two unit circles ten apart. *)
Example disjoint_circles_no_solution :
  circle_intersection (R := reference) (0, 0) 1 (10, 0) 1 = Ok None
  /\ trilaterate (R := reference) default_tolerance
       (0, 0) (10, 0) (0, 10) 1 1 1
     = Ok None.
Proof. split; vm_compute; reflexivity. Qed.

(** A node at [(3, 4)] with exact distances to three anchors is found. *)
Example exact_distances_recover_position :
  trilaterate (R := reference) default_tolerance (0, 0) (6, 0) (3, 0) 5 5 4
  = Ok (Some (3, 4)).
Proof. vm_compute; reflexivity. Qed.


(** C3, counterexample.  With the circles of radius 5 around [(0, 0)] and
    [(6, 0)] the candidates are [(3, 4)] and [(3, -4)]; from
    [p3 = (3, 1004)] they are at distances 1000 and 1008.  For
    [d3 = 1000.015] neither is within 0.01 of [d3], and still the first
    candidate is returned, not the midpoint [(3, 0)]. *)
Lemma trilaterate_selects_beyond_tolerance :
  circle_intersection (R := reference) (0, 0) 5 (6, 0) 5
  = Ok (Some ((3, 4), (3, -4)))
  /\ (PrimFloat.abs (Np.norm (Np.vsub (3, 1004) (3, 4)) - 1000.015)
        <=? default_tolerance) = false
  /\ (PrimFloat.abs (Np.norm (Np.vsub (3, 1004) (3, -4)) - 1000.015)
        <=? default_tolerance) = false
  /\ trilaterate (R := reference) default_tolerance
       (0, 0) (6, 0) (3, 1004) 5 5 1000.015
     = Ok (Some (3, 4))
  /\ midpoint (3, 4) (3, -4) = (3, 0).
Proof. repeat split; vm_compute; reflexivity. Qed.

Lemma trilaterate_selection_witness :
  circle_intersection (R := reference) (0, 0) 5 (6, 0) 5
  = Ok (Some ((3, 4), (3, -4)))
  /\ trilaterate (R := reference) default_tolerance
       (0, 0) (6, 0) (3, 1004) 5 5 1000.015
     = Ok (Some (3, 4))
  /\ trilaterate (R := reference) default_tolerance
       (0, 0) (6, 0) (3, 1004) 5 5 1004
     = Ok (Some (3, 0)).
Proof.
  assert (E : circle_intersection (R := reference) (0, 0) 5 (6, 0) 5
              = Ok (Some ((3, 4), (3, -4))))
    by (vm_compute; reflexivity).
  split; [exact E|]. split.
  - apply (trilaterate_selection default_tolerance (0, 0) (6, 0) (3, 1004)
             5 5 1000.015 (3, 4) (3, -4) E).
    vm_compute; reflexivity.
  - apply (trilaterate_selection default_tolerance (0, 0) (6, 0) (3, 1004)
             5 5 1004 (3, 4) (3, -4) E); vm_compute; reflexivity.
Defined.

End TrilaterateFacts.

(** ** The iterative solver *)

Module LocateFacts.

Import Trilateration PyFacts TrilaterateFacts.
#[local] Open Scope nat_scope.

(** *** Neighbour lists *)

Lemma insert_by_distance_perm x l :
  Permutation (x :: l) (insert_by_distance x l).
Proof.
  induction l as [|y l IH]; simpl; [apply Permutation_refl|].
  destruct (PrimFloat.ltb (snd y) (snd x)).
  - eapply perm_trans; [apply perm_swap|]. now apply perm_skip.
  - apply Permutation_refl.
Qed.

Lemma sorted_by_distance_perm l : Permutation l (sorted_by_distance l).
Proof.
  induction l as [|x l IH]; simpl; [constructor|].
  eapply perm_trans; [apply perm_skip, IH|]. apply insert_by_distance_perm.
Qed.

(** The runtime of the concrete statements sorts as [sorted] must. *)
Lemma reference_sorts : Sorts reference.
Proof.
  constructor; [exact sorted_by_distance_perm | reflexivity].
Qed.

#[export] Existing Instance reference_sorts.

Lemma known_neighbors_keys known distances id2 k d :
  In (k, d) (known_neighbors known distances id2) -> In k (Py.keys known).
Proof.
  unfold known_neighbors. rewrite in_flat_map. intros (k' & Hk & Hin).
  destruct (_ || _); [|destruct Hin].
  destruct (get_either distances id2 k'); [|destruct Hin].
  destruct Hin as [[= <- _]|[]]. exact Hk.
Qed.

(** The distance of a neighbour is the distance of a key. *)
Lemma known_neighbors_distance known (distances : distance_map) id2 k d :
  In (k, d) (known_neighbors known distances id2) ->
  exists key, In (key, d) distances.
Proof.
  unfold known_neighbors. rewrite in_flat_map. intros (k' & Hk & Hin).
  destruct (_ || _); [|destruct Hin].
  destruct (get_either distances id2 k') as [d'|] eqn:E; [|destruct Hin].
  destruct Hin as [[= _ <-]|[]].
  unfold get_either in E.
  destruct (Py.get edge_eqb distances (id2, k')) as [d1|] eqn:G.
  - injection E as <-. exact (get_value_In _ _ _ _ G).
  - exact (get_value_In _ _ _ _ E).
Qed.

Section Generic.

Context {R : Runtime} {sorts : Sorts R}.

Lemma neighbors_keys known distances id2 k d :
  In (k, d) (neighbors known distances id2) -> In k (Py.keys known).
Proof.
  intros H. apply (known_neighbors_keys known distances id2 k d).
  eapply Permutation_in; [|exact H].
  apply Permutation_sym, sorted_permutation.
Qed.

Lemma neighbors_distance known (distances : distance_map) id2 k d :
  In (k, d) (neighbors known distances id2) ->
  exists key, In (key, d) distances.
Proof.
  intros H. apply (known_neighbors_distance known distances id2 k d).
  eapply Permutation_in; [|exact H].
  apply Permutation_sym, sorted_permutation.
Qed.

(** *** One edge *)

(** What a completed visit of an edge has done. *)
Lemma visit_edge_effect tolerance distances st item st' :
  visit_edge tolerance distances st item = Ok st' ->
  edge_effect st (fst (fst item)) (snd (fst item)) st'.
Proof.
  unfold visit_edge.
  destruct (Py.mem Z.eqb (known_positions st) (fst (fst item))) eqn:M1;
    simpl; [|intros [= <-]; constructor].
  destruct (Py.mem Z.eqb (known_positions st) (snd (fst item))) eqn:M2;
    simpl; [intros [= <-]; constructor|].
  destruct (neighbors (known_positions st) distances (snd (fst item)))
    as [|[k1 d1] [|[k2 d2] [|[k3 d3] rest]]];
    try (intros [= <-]; constructor).
  destruct (Py.item Z.eqb (known_positions st) k1) as [p1|]; simpl;
    [|discriminate].
  destruct (Py.item Z.eqb (known_positions st) k2) as [p2|]; simpl;
    [|discriminate].
  destruct (Py.item Z.eqb (known_positions st) k3) as [p3|]; simpl;
    [|discriminate].
  destruct (trilaterate tolerance p1 p2 p3 d1 d2 d3) as [[p|]|e]; simpl;
    try discriminate; intros [= <-].
  - rewrite (set_absent _ _ _ (mem_false_get _ _ M2)).
    apply effect_estimate; [exact M1 | now apply mem_false_get].
  - constructor.
Qed.

(** A visit raises only what the square of a distance raises: the
    neighbours are keys of [known_positions], so the subscripts find
    them. *)
Lemma visit_edge_Raise tolerance distances st item e :
  visit_edge tolerance distances st item = Raise e ->
  raised_by_square distances e.
Proof.
  unfold visit_edge.
  destruct (Py.mem Z.eqb (known_positions st) (fst (fst item)));
    simpl; [|discriminate].
  destruct (Py.mem Z.eqb (known_positions st) (snd (fst item)));
    simpl; [discriminate|].
  assert (K : forall k d,
             In (k, d) (neighbors (known_positions st) distances
                          (snd (fst item))) ->
             exists v, Py.get Z.eqb (known_positions st) k = Some v).
  { intros k d H. apply get_In. eapply neighbors_keys; eauto. }
  assert (D : forall k d,
             In (k, d) (neighbors (known_positions st) distances
                          (snd (fst item))) ->
             exists key, In (key, d) distances).
  { intros k d H. eapply neighbors_distance; eauto. }
  destruct (neighbors (known_positions st) distances (snd (fst item)))
    as [|[k1 d1] [|[k2 d2] [|[k3 d3] rest]]]; try discriminate.
  destruct (K k1 d1) as [p1 G1]; [simpl; auto|].
  destruct (K k2 d2) as [p2 G2]; [simpl; auto|].
  destruct (K k3 d3) as [p3 G3]; [simpl; auto|].
  unfold Py.item. rewrite G1, G2, G3. simpl.
  destruct (trilaterate tolerance p1 p2 p3 d1 d2 d3) as [[p|]|e'] eqn:T;
    simpl; try discriminate.
  intros [= <-]. apply trilaterate_Raise in T. destruct T as [T|T].
  - destruct (D k1 d1) as [key Hkey]; [simpl; auto|].
    exists key, d1. auto.
  - destruct (D k2 d2) as [key Hkey]; [simpl; auto|].
    exists key, d2. auto.
Qed.

(** *** The invariant of the loops *)

Section Invariant.

Variable tolerance : float.
Variable known0 : @Py.dict node point.
Variable distances : distance_map.

#[local] Abbreviation grows_from := (Trilateration.grows_from known0 distances).

Lemma grows_from_start : grows_from known0 [].
Proof.
  unfold grows_from. rewrite app_nil_r. repeat split.
  - constructor.
  - intros x [].
Qed.

Lemma unknown_nodes_In (e : edge) (d : float) :
  In (e, d) distances ->
  Py.get Z.eqb known0 (snd e) = None ->
  In (snd e) (unknown_nodes known0 distances).
Proof.
  intros Hin Hget. unfold unknown_nodes. apply nodup_In, filter_In.
  split.
  - unfold nodes_of. apply in_flat_map. exists (e, d).
    split; [exact Hin | simpl; auto].
  - unfold Py.mem. now rewrite Hget.
Qed.

Lemma edge_effect_grows st (e : edge) (d : float) st' :
  In (e, d) distances ->
  grows_from (known_positions st) (estimated_positions st) ->
  edge_effect st (fst e) (snd e) st' ->
  grows_from (known_positions st') (estimated_positions st')
  /\ exists new,
       estimated_positions st' = estimated_positions st ++ new
       /\ (new = [] -> progress_made st' = progress_made st)
       /\ (new <> [] -> progress_made st' = true).
Proof.
  intros Hin (Hk & Hnd & Hincl) Heff.
  destruct Heff as [| |p M1 G2]; simpl.
  - split; [now repeat split|]. exists []. rewrite app_nil_r.
    repeat split; congruence.
  - split; [now repeat split|]. exists []. rewrite app_nil_r.
    repeat split; congruence.
  - rewrite Hk in G2. rewrite get_app in G2.
    destruct (Py.get Z.eqb known0 (snd e)) eqn:G0; [discriminate|].
    rewrite (set_absent _ _ _ G2). split.
    + repeat split.
      * now rewrite Hk, app_assoc.
      * rewrite keys_app. simpl. apply NoDup_app; auto.
        -- repeat constructor. intros [].
        -- intros x Hx [<-|[]]. apply get_None_not_In in G2. auto.
      * rewrite keys_app. apply incl_app; [exact Hincl|].
        intros x [<-|[]]. simpl. eapply unknown_nodes_In; eauto.
    + exists [(snd e, p)]. repeat split; congruence.
Qed.

(** A completed pass keeps the invariant, only appends to
    [estimated_positions], and sets [progress_made] exactly when it
    appends something. *)
Lemma run_pass_grows known est ps :
  grows_from known est ->
  run_pass tolerance distances known est = Ok ps ->
  exists new,
    grows_from (known_positions ps) (estimated_positions ps)
    /\ estimated_positions ps = est ++ new
    /\ (progress_made ps = false <-> new = []).
Proof.
  intros Hinv Hps. unfold run_pass in Hps.
  pose (P := fun s : pass_state =>
               grows_from (known_positions s) (estimated_positions s)
               /\ exists new, estimated_positions s = est ++ new
                    /\ (progress_made s = false <-> new = [])).
  assert (HP : P ps).
  { apply (for_each_invariant P (visit_edge tolerance distances)
             distances) with (s := mk_pass known est false []);
      [|split; [exact Hinv|exists []; simpl; rewrite app_nil_r; tauto]
       |exact Hps].
    intros s [e d] s' Hin (Hg & new & Hnew & Hprog) Hv.
    apply visit_edge_effect in Hv. simpl in Hv.
    destruct (edge_effect_grows s e d s' Hin Hg Hv)
      as (Hg' & new' & Hest & Hsame & Hset).
    split; [exact Hg'|]. exists (new ++ new').
    split; [now rewrite Hest, Hnew, app_assoc|].
    destruct new' as [|x new'].
    - rewrite app_nil_r, Hsame by reflexivity. exact Hprog.
    - rewrite Hset by discriminate. split; [discriminate|].
      intros H. apply app_eq_nil in H. destruct H; discriminate. }
  destruct HP as (Hg & new & Hnew & Hprog).
  exists new. auto.
Qed.

End Invariant.

(** *** The [while] loop *)

(** A pass raises only what the square of a distance raises. *)
Lemma run_pass_Raise tolerance distances known est e :
  run_pass tolerance distances known est = Raise e ->
  raised_by_square distances e.
Proof.
  unfold run_pass. intros E.
  pose proof (for_each_cases (fun _ => True) (raised_by_square distances)
                (visit_edge tolerance distances) distances
                (fun _ _ _ _ _ _ => I)
                (fun s x e' _ _ H => visit_edge_Raise _ _ _ _ _ H)
                (mk_pass known est false []) I) as H.
  rewrite E in H. exact H.
Qed.

(** The branches at the end of the loop body, read off the pass. *)
Lemma loop_body_control tolerance distances max_iter st ps :
  run_pass tolerance distances (loop_known st) (loop_estimated st) = Ok ps ->
  loop_body tolerance distances max_iter st =
  Ok ((if (max_iter <? S (iteration_count st))
          || negb (progress_made ps) && (length (pending_nodes ps) =? 0)
       then Break else Again)
        (mk_loop (known_positions ps) (estimated_positions ps)
           (S (iteration_count st)))).
Proof.
  intros Hps. unfold loop_body. rewrite Hps. simpl.
  destruct (max_iter <? S (iteration_count st)); [reflexivity|].
  destruct (progress_made ps), (length (pending_nodes ps) =? 0);
    reflexivity.
Qed.

(** The loop body completes exactly when its pass does. *)
Lemma loop_body_pass tolerance distances max_iter st c :
  loop_body tolerance distances max_iter st = Ok c ->
  exists ps,
    run_pass tolerance distances (loop_known st) (loop_estimated st) = Ok ps.
Proof.
  unfold loop_body.
  destruct (run_pass tolerance distances (loop_known st) (loop_estimated st))
    as [ps|e]; [eauto | discriminate].
Qed.

Lemma loop_body_propagates tolerance distances max_iter st e :
  run_pass tolerance distances (loop_known st) (loop_estimated st)
  = Raise e <->
  loop_body tolerance distances max_iter st = Raise e.
Proof.
  unfold loop_body.
  destruct (run_pass tolerance distances (loop_known st) (loop_estimated st))
    as [ps|e']; simpl; [|split; intros [= ->]; reflexivity].
  split; [discriminate|].
  destruct (max_iter <? S (iteration_count st)); [discriminate|].
  destruct (negb (progress_made ps) && _); [discriminate|].
  destruct (negb (progress_made ps)); discriminate.
Qed.

Section Loop.

Variable tolerance : float.
Variable known0 : @Py.dict node point.
Variable distances : distance_map.
Variables n max_iter : nat.

#[local] Abbreviation inv st :=
  (grows_from known0 distances (loop_known st) (loop_estimated st)).

Lemma loop_body_grows st c :
  inv st ->
  loop_body tolerance distances max_iter st = Ok c ->
  exists new,
    inv (state_of c)
    /\ loop_estimated (state_of c) = loop_estimated st ++ new
    /\ iteration_count (state_of c) = S (iteration_count st)
    /\ (is_break c = false -> iteration_count (state_of c) <= max_iter).
Proof.
  intros Hinv Hbody.
  destruct (loop_body_pass _ _ _ _ _ Hbody) as [ps Hps].
  destruct (run_pass_grows tolerance known0 distances _ _ _ Hinv Hps)
    as (new & Hg & Hnew & _).
  rewrite (loop_body_control _ _ max_iter _ _ Hps) in Hbody.
  injection Hbody as <-. exists new.
  destruct (max_iter <? S (iteration_count st)) eqn:C; simpl.
  - refine (conj Hg (conj Hnew (conj eq_refl _))). intros [=].
  - apply Nat.ltb_ge in C.
    destruct (negb (progress_made ps) && _); simpl;
      refine (conj Hg (conj Hnew (conj eq_refl _)));
      [intros [=] | intros _; exact C].
Qed.

(** With the counter at most [max_iter] at the head of the loop and
    fuel for the iterations up to [max_iter + 1], the loop ends: it
    returns, or it raises what the square of a distance raised. *)
Lemma while_loop_ends fuel : forall st,
  inv st ->
  iteration_count st <= max_iter ->
  max_iter < iteration_count st + fuel ->
  exists r,
    while_loop fuel tolerance distances n max_iter st = Some r
    /\ match r with
       | Ok st' => inv st' /\ iteration_count st' <= S max_iter
       | Raise e => raised_by_square distances e
       end.
Proof.
  induction fuel as [|fuel IH]; intros st Hinv Hle Hfuel; simpl;
    destruct (length (loop_estimated st) <? n);
    try (exists (Ok st); split; [reflexivity|split; [exact Hinv|lia]]);
    [lia|].
  destruct (loop_body tolerance distances max_iter st) as [c|e] eqn:Hb.
  - destruct (loop_body_grows st c Hinv Hb)
      as (new & Hinv' & _ & Hcount & Hagain).
    destruct c as [st'|st']; simpl in *.
    + apply IH; auto; specialize (Hagain eq_refl); lia.
    + exists (Ok st'). split; [reflexivity|split; [exact Hinv'|lia]].
  - exists (Raise e). split; [reflexivity|].
    apply loop_body_propagates in Hb. eapply run_pass_Raise; eauto.
Qed.

(** More fuel does not change the result of a loop that has ended. *)
Lemma while_loop_more_fuel fuel extra : forall st r,
  while_loop fuel tolerance distances n max_iter st = Some r ->
  while_loop (fuel + extra) tolerance distances n max_iter st = Some r.
Proof.
  induction fuel as [|fuel IH]; intros st r; simpl.
  - destruct extra; simpl;
      destruct (length (loop_estimated st) <? n); congruence.
  - destruct (length (loop_estimated st) <? n); [|congruence].
    destruct (loop_body tolerance distances max_iter st)
      as [[st'|st']|e]; try congruence.
    apply IH.
Qed.

End Loop.

(** An invariant of the loop body holds when the loop has returned. *)
Lemma while_loop_invariant (P : loop_state -> Prop) tolerance distances
  n max_iter :
  (forall st c,
      P st -> loop_body tolerance distances max_iter st = Ok c ->
      P (state_of c)) ->
  forall fuel st st',
    P st ->
    while_loop fuel tolerance distances n max_iter st = Some (Ok st') ->
    P st'.
Proof.
  intros Hbody. induction fuel as [|fuel IH]; intros st st' HP; simpl;
    destruct (length (loop_estimated st) <? n); try discriminate;
    try (intros [= <-]; exact HP).
  destruct (loop_body tolerance distances max_iter st) as [[s|s]|e] eqn:E;
    try discriminate.
  - apply IH. apply (Hbody st (Again s) HP E).
  - intros [= <-]. apply (Hbody st (Break s) HP E).
Qed.

(** When the call returns, [known_positions] is what the caller passed
    followed by the estimates. *)
Lemma locate_other_vehicles_grows tolerance known distances st :
  locate_other_vehicles tolerance known distances = Some (Ok st) ->
  grows_from known distances (loop_known st) (loop_estimated st).
Proof.
  unfold locate_other_vehicles, locate_other_vehicles_within.
  apply (while_loop_invariant
           (fun s => grows_from known distances (loop_known s)
                       (loop_estimated s))).
  - intros s c Hs Hc.
    destruct (loop_body_grows tolerance known distances _ s c Hs Hc)
      as (new & H & _). exact H.
  - apply grows_from_start.
Qed.

(** C4, as the code has it.  For every input the loop of
    [locate_other_vehicles] ends, after at most [max_iterations + 1]
    passes (the cap is tested with [iteration_count > max_iterations],
    after the pass is counted), whatever fuel beyond that is given.  The
    call returns an [estimated_positions] whose keys are distinct unknown
    nodes: empty, partial or complete; or it ends with the exception that
    the square [d ** 2] of a distance [d] of the dictionary raised, and
    raises for no other reason. *)
Theorem locate_other_vehicles_terminates
  (tolerance : float) (known : @Py.dict node point)
  (distances : distance_map) (extra : nat) :
  exists r,
    locate_other_vehicles_within
      (S (max_iterations known distances) + extra)
      tolerance known distances = Some r
    /\ locate_other_vehicles tolerance known distances = Some r
    /\ match r with
       | Ok st =>
           iteration_count st <= max_iterations known distances + 1
           /\ NoDup (Py.keys (loop_estimated st))
           /\ incl (Py.keys (loop_estimated st))
                (unknown_nodes known distances)
           /\ length (loop_estimated st)
              <= length (unknown_nodes known distances)
       | Raise e =>
           exists key d, In (key, d) distances /\ float_pow2 d = Raise e
       end.
Proof.
  set (m := max_iterations known distances).
  pose (st0 := mk_loop known [] 0).
  assert (H0 : grows_from known distances (loop_known st0)
                 (loop_estimated st0)) by apply grows_from_start.
  destruct (while_loop_ends tolerance known distances
              (n_unknown known distances) m (S m) st0 H0)
    as (r & Hrun & Hr); simpl; try lia.
  exists r. unfold locate_other_vehicles, locate_other_vehicles_within.
  fold m. fold st0. split; [|split; [exact Hrun|]].
  - exact (while_loop_more_fuel tolerance distances _ m (S m) extra st0 r
             Hrun).
  - destruct r as [st|e]; [|exact Hr].
    destruct Hr as ((_ & Hnd & Hincl) & Hcount).
    repeat split; auto; try lia.
    rewrite <- (length_map fst (loop_estimated st)).
    now apply NoDup_incl_length.
Qed.



(** *** The states of a run *)

Lemma loop_head_grows tolerance known0 distances st :
  loop_head tolerance known0 distances st ->
  grows_from known0 distances (loop_known st) (loop_estimated st).
Proof.
  induction 1 as [|st st' _ IH _ Hbody]; [apply grows_from_start|].
  destruct (loop_body_grows tolerance known0 distances
              (max_iterations known0 distances) st _ IH Hbody)
    as (new & Hinv & _).
  exact Hinv.
Qed.

(** C9.  In a run of [locate_other_vehicles], a pass started from the
    head of the loop completes with [known_positions] at least as large
    as before the pass, and equal to the initial dictionary followed by
    the entries of [estimated_positions] so far (as it was before the
    pass). *)
Theorem known_positions_grows_with_estimates
  (tolerance : float) (known0 : @Py.dict node point)
  (distances : distance_map) (st : loop_state) (c : control) :
  loop_head tolerance known0 distances st ->
  loop_body tolerance distances (max_iterations known0 distances) st
  = Ok c ->
  loop_known st = known0 ++ loop_estimated st
  /\ loop_known (state_of c) = known0 ++ loop_estimated (state_of c)
  /\ length (loop_known st) <= length (loop_known (state_of c))
  /\ NoDup (Py.keys (loop_estimated (state_of c)))
  /\ incl (Py.keys (loop_estimated (state_of c)))
       (unknown_nodes known0 distances).
Proof.
  intros Hhead Hbody. apply loop_head_grows in Hhead.
  destruct (loop_body_grows tolerance known0 distances
              (max_iterations known0 distances) st c Hhead Hbody)
    as (new & (Hk' & Hnd & Hincl) & Hnew & _).
  destruct Hhead as (Hk & _).
  repeat split; auto.
  rewrite Hk', Hk, Hnew, !length_app. lia.
Qed.

(** C10.  When [locate_other_vehicles] returns, it leaves in the caller's
    [known_positions] the entries that were there, unchanged and in
    place, followed by exactly the entries of the returned
    [estimated_positions]; a lookup finds the caller's value for a key the
    caller had, and the estimate otherwise.  Every statement that writes
    ([visit_edge]) only appends to [known_positions]: what was written
    once stays. *)
Theorem caller_known_positions_extended
  (tolerance : float) (known0 : @Py.dict node point)
  (distances : distance_map) (st : loop_state) :
  locate_other_vehicles tolerance known0 distances = Some (Ok st) ->
  loop_known st = known0 ++ loop_estimated st
  /\ (forall k,
         Py.get Z.eqb (loop_known st) k =
         match Py.get Z.eqb known0 k with
         | Some v => Some v
         | None => Py.get Z.eqb (loop_estimated st) k
         end)
  /\ (forall s item s',
         visit_edge tolerance distances s item = Ok s' ->
         exists new, known_positions s' = known_positions s ++ new).
Proof.
  intros Hrun.
  destruct (locate_other_vehicles_grows _ _ _ _ Hrun) as (Hk & _).
  split; [exact Hk|]. split.
  - intros k. rewrite Hk at 1. apply get_app.
  - intros s item s' Hv. apply visit_edge_effect in Hv. destruct Hv.
    + exists []. now rewrite app_nil_r.
    + exists []. simpl. now rewrite app_nil_r.
    + eexists. reflexivity.
Qed.

End Generic.

(** C4, counterexample.  One unknown node (3) with a single known
    neighbour: [max_iterations] is [1 * 1 = 1], and the loop makes two
    passes before it stops. *)
Lemma two_passes_for_one_unknown_node :
  let known : @Py.dict node point := [(0%Z, (0, 0))%float] in
  let distances : distance_map := [((0%Z, 3%Z), 5%float)] in
  unknown_nodes known distances = [3%Z]
  /\ max_iterations known distances = 1
  /\ locate_other_vehicles (R := reference) default_tolerance known
       distances
     = Some (Ok (mk_loop known [] 2)).
Proof. repeat split. Qed.

(** Three anchors at distance [1e200] from node 3: the first attempt
    squares a distance, and the call ends with [OverflowError]. *)
Lemma locate_other_vehicles_terminates_witness :
  let known : @Py.dict node point :=
    [(0%Z, (0, 0)); (1%Z, (1, 0)); (2%Z, (0, 1))]%float in
  let distances : distance_map :=
    [((0%Z, 3%Z), 1e200); ((1%Z, 3%Z), 1e200); ((2%Z, 3%Z), 1e200)]%float in
  locate_other_vehicles (R := reference) default_tolerance known distances
  = Some (Raise OverflowError)
  /\ exists key d,
       In (key, d) distances
       /\ float_pow2 (Runtime := reference) d = Raise OverflowError.
Proof.
  intros known distances.
  assert (E : locate_other_vehicles (R := reference) default_tolerance
                known distances
              = Some (Raise OverflowError)) by (vm_compute; reflexivity).
  split; [exact E|].
  destruct (locate_other_vehicles_terminates (R := reference)
              default_tolerance known distances 0)
    as (r & _ & Hr & H).
  rewrite E in Hr. injection Hr as <-. exact H.
Defined.



Lemma known_positions_grows_with_estimates_witness :
  let known0 : @Py.dict node point :=
    [(0%Z, (0, 0)); (1%Z, (6, 0)); (2%Z, (3, 1004))]%float in
  let distances : distance_map :=
    [((0%Z, 3%Z), 5); ((1%Z, 3%Z), 5); ((3%Z, 2%Z), 1000.015)]%float in
  let known1 := known0 ++ [(3%Z, (3, 4)%float)] in
  length known0 <= length known1
  /\ loop_body (R := reference) default_tolerance distances
       (max_iterations known0 distances) (mk_loop known0 [] 0)
     = Ok (Again (mk_loop known1 [(3%Z, (3, 4)%float)] 1)).
Proof.
  intros known0 distances known1.
  assert (E : loop_body (R := reference) default_tolerance distances
                (max_iterations known0 distances) (mk_loop known0 [] 0)
              = Ok (Again (mk_loop known1 [(3%Z, (3, 4)%float)] 1)))
    by (vm_compute; reflexivity).
  split; [|exact E].
  apply (known_positions_grows_with_estimates (R := reference)
           default_tolerance known0
           distances (mk_loop known0 [] 0) _
           (head_start default_tolerance known0 distances) E).
Defined.

Lemma caller_known_positions_extended_witness :
  let known0 : @Py.dict node point :=
    [(0%Z, (0, 0)); (1%Z, (6, 0)); (2%Z, (3, 1004))]%float in
  let distances : distance_map :=
    [((0%Z, 3%Z), 5); ((1%Z, 3%Z), 5); ((3%Z, 2%Z), 1000.015)]%float in
  locate_other_vehicles (R := reference) default_tolerance known0 distances
  = Some (Ok (mk_loop (known0 ++ [(3%Z, (3, 4)%float)])
                [(3%Z, (3, 4)%float)] 1))
  /\ Py.get Z.eqb (known0 ++ [(3%Z, (3, 4)%float)]) 3%Z
     = Py.get Z.eqb [(3%Z, (3, 4)%float)] 3%Z.
Proof.
  intros known0 distances.
  assert (E : locate_other_vehicles (R := reference) default_tolerance
                known0 distances
              = Some (Ok (mk_loop (known0 ++ [(3%Z, (3, 4)%float)])
                            [(3%Z, (3, 4)%float)] 1)))
    by (vm_compute; reflexivity).
  split; [exact E|].
  destruct (caller_known_positions_extended (R := reference)
              default_tolerance known0 distances _ E) as (_ & H & _).
  exact (H 3%Z).
Defined.

End LocateFacts.

(** ** The grid solver *)

Module BeliefFacts.

Import BeliefPropagation PyFacts FloatFacts NpFacts.
#[local] Open Scope float_scope.

Lemma initialize_belief_grid_Ok cfg gx gy ones :
  initialize_belief_grid cfg = Ok (gx, gy, ones) ->
  exists xs,
    Np.arange (area_size cfg) (grid_size cfg) = Ok xs
    /\ Np.meshgrid xs xs = (gx, gy)
    /\ ones = map (fun _ => 1) (Np.data gx).
Proof.
  unfold initialize_belief_grid.
  destruct (Np.arange (area_size cfg) (grid_size cfg)) as [xs|e];
    simpl; [|discriminate].
  intros [= <- <- <-]. now exists xs.
Qed.

Section Solver.

Variable pdf : float -> float -> float -> float.
Variable cfg : config.
Variable known_positions : @Py.dict node point.
Variable distances : distance_map.

Lemma update_belief_length gx gy belief m :
  length (Np.data gy) = length (Np.data gx) ->
  length belief = length (Np.data gx) ->
  length (update_belief pdf cfg gx gy belief m) = length (Np.data gx).
Proof.
  intros Hy Hb. unfold update_belief, dist_map.
  rewrite length_map, length_combine, length_map, length_combine. lia.
Qed.

Lemma fold_update_belief_length gx gy ms :
  length (Np.data gy) = length (Np.data gx) ->
  forall belief,
    length belief = length (Np.data gx) ->
    length (fold_left (update_belief pdf cfg gx gy) ms belief)
    = length (Np.data gx).
Proof.
  intros Hy. induction ms as [|m ms IH]; intros b Hb; simpl; [exact Hb|].
  apply IH. now apply update_belief_length.
Qed.

Lemma accumulated_belief_length u belief gx gy ones :
  initialize_belief_grid cfg = Ok (gx, gy, ones) ->
  accumulated_belief pdf cfg known_positions distances u = Ok belief ->
  length belief = length (Np.data gx).
Proof.
  intros Hg. unfold accumulated_belief. rewrite Hg. simpl.
  destruct (measurements known_positions distances u) as [ms|e];
    simpl; [|discriminate].
  intros [= <-].
  destruct (initialize_belief_grid_Ok cfg _ _ _ Hg) as (xs & _ & Hm & ->).
  destruct (meshgrid_shape xs xs gx gy Hm) as (_ & _ & _ & Hy).
  apply fold_update_belief_length; [exact Hy | apply length_map].
Qed.

(** The value written for a node is the cell at the flat index that
    [np.argmax] returns for the normalised surface. *)
Lemma estimate_node_cell u gx gy ones belief belief' k v :
  initialize_belief_grid cfg = Ok (gx, gy, ones) ->
  accumulated_belief pdf cfg known_positions distances u = Ok belief ->
  normalize belief = Ok belief' ->
  Np.argmax belief' = Ok k ->
  nth_error belief' k = Some v ->
  exists c,
    nth_error (combine (Np.data gx) (Np.data gy)) k = Some c
    /\ estimate_node pdf cfg known_positions distances u = Ok c.
Proof.
  intros Hg Hb Hn Hk Hv.
  pose proof (accumulated_belief_length u belief gx gy ones Hg Hb) as Hlen.
  assert (Hlen' : length belief' = length belief).
  { unfold normalize in Hn. destruct (Np.amax belief); simpl in Hn;
      [|discriminate]. injection Hn as <-. apply length_map. }
  assert (Hlt : (k < length (Np.data gx))%nat).
  { rewrite <- Hlen, <- Hlen'. apply nth_error_Some. congruence. }
  destruct (initialize_belief_grid_Ok cfg _ _ _ Hg) as (xs & _ & Hm & _).
  destruct (meshgrid_shape xs xs gx gy Hm) as (H1 & H2 & H3 & Hly).
  destruct (nth_error (Np.data gx) k) as [x|] eqn:Nx;
    [|apply nth_error_None in Nx; lia].
  destruct (nth_error (Np.data gy) k) as [y|] eqn:Ny;
    [|apply nth_error_None in Ny; lia].
  exists (x, y). split.
  - clear - Nx Ny. revert k Nx Ny.
    generalize (Np.data gx) as l1, (Np.data gy) as l2.
    induction l1 as [|a l1 IH]; intros l2 [|k]; destruct l2; simpl;
      try discriminate; [congruence | apply IH].
  - unfold estimate_node. rewrite Hg, Hb. simpl. rewrite Hn. simpl.
    rewrite Hk. simpl.
    rewrite (at_index_unravel gx k x H1 Nx). simpl.
    replace (Np.unravel_index k gx) with (Np.unravel_index k gy)
      by (unfold Np.unravel_index; now rewrite H3).
    now rewrite (at_index_unravel gy k y H2 Ny).
Qed.

(** The dictionary built over distinct nodes holds, in their order, each
    node with its estimate. *)
Lemma belief_propagation_over_entries (order : list node) :
  NoDup order ->
  forall est0 est,
    (forall u, In u order -> ~ In u (Py.keys est0)) ->
    Py.for_each
      (fun est u =>
         p <- estimate_node pdf cfg known_positions distances u ;;
         Ok (Py.set Z.eqb est u p))
      order est0 = Ok est ->
    exists cells,
      est = est0 ++ combine order cells
      /\ Forall2
           (fun u c =>
              estimate_node pdf cfg known_positions distances u = Ok c)
           order cells.
Proof.
  induction 1 as [|u order Hu Hnd IH]; intros est0 est Hfresh; simpl.
  - intros [= <-]. exists []. now rewrite app_nil_r.
  - destruct (estimate_node pdf cfg known_positions distances u)
      as [c|e] eqn:Ec; simpl; [|discriminate].
    rewrite set_absent
      by (apply get_None_not_In, Hfresh; now left).
    intros Hrun. apply IH in Hrun.
    + destruct Hrun as (cells & -> & Hall). exists (c :: cells).
      split; [now rewrite <- app_assoc | now constructor].
    + intros w Hw. rewrite keys_app. simpl. intros Hin.
      apply in_app_or in Hin. destruct Hin as [Hin|[<-|[]]].
      * apply (Hfresh w); [now right | exact Hin].
      * contradiction.
Qed.

Lemma belief_propagation_entries est :
  belief_propagation pdf cfg known_positions distances = Ok est ->
  Py.keys est = unknown_nodes known_positions distances
  /\ forall u, In u (unknown_nodes known_positions distances) ->
       exists c,
         estimate_node pdf cfg known_positions distances u = Ok c
         /\ Py.get Z.eqb est u = Some c.
Proof.
  unfold belief_propagation, belief_propagation_over. intros Hrun.
  apply belief_propagation_over_entries in Hrun;
    [|apply NoDup_nodup | intros u _ []].
  destruct Hrun as (cells & -> & Hall). simpl.
  pose proof (NoDup_nodup Z.eq_dec
                (filter (fun n => negb (Py.mem Z.eqb known_positions n))
                   (nodes_of distances))) as Hnd.
  fold (unknown_nodes known_positions distances) in Hnd, Hall |- *.
  revert Hnd.
  induction Hall as [|u c order cells Hc Hall IH]; intros Hnd; simpl.
  - split; [reflexivity | intros u []].
  - inversion Hnd as [|? ? Hu Hnd']; subst.
    destruct (IH Hnd') as (Hkeys & Hget).
    split; [unfold Py.keys in *; simpl; now rewrite Hkeys|].
    intros w [<-|Hw].
    + exists c. now rewrite Z.eqb_refl.
    + destruct (Z.eqb_spec u w) as [->|Hne]; [contradiction|].
      now apply Hget.
Qed.

End Solver.

(** C1, counterexample.  Default configuration, one anchor at [(0, 0)] and
    a measured distance of 1000 to node 3: the density underflows to zero
    on every cell of the 100 x 100 grid, so the maximum of the belief
    surface is exactly zero.  Nothing detects it: node 3 is in the result,
    at cell [(0, 0)]. *)
Lemma zero_maximum_not_detected :
  let known : @Py.dict node point := [(0%Z, (0, 0))] in
  let distances : distance_map := [((3%Z, 0%Z), 1000)] in
  unknown_nodes known distances = [3%Z]
  /\ (belief <- accumulated_belief Scipy.norm_pdf default_config known
                  distances 3%Z ;;
      Np.amax belief) = Ok 0
  /\ belief_propagation Scipy.norm_pdf default_config known distances
     = Ok [(3%Z, (0%Z, 0%Z))].
Proof. repeat split; vm_compute; reflexivity. Qed.

(** C1, as the code has it.  When the belief surface of an unknown node
    has a maximum of exactly zero, the surface is still divided by it: the
    normalised surface holds a [nan] ([0 / 0]), [np.argmax] returns the
    index of a [nan], and the node gets an entry in [estimated_positions]
    all the same, the grid cell at that index. *)
Theorem zero_maximum_still_estimated
  (pdf : float -> float -> float -> float) (cfg : config)
  (known_positions : @Py.dict node point) (distances : distance_map)
  (est : @Py.dict node cell) (u : node) (belief : list float) (m : float) :
  belief_propagation pdf cfg known_positions distances = Ok est ->
  In u (unknown_nodes known_positions distances) ->
  accumulated_belief pdf cfg known_positions distances u = Ok belief ->
  Np.amax belief = Ok m ->
  (m =? 0) = true ->
  exists gx gy ones k v c,
    initialize_belief_grid cfg = Ok (gx, gy, ones)
    /\ normalize belief = Ok (map (fun b => b / m) belief)
    /\ Np.argmax (map (fun b => b / m) belief) = Ok k
    /\ nth_error (map (fun b => b / m) belief) k = Some v
    /\ PrimFloat.is_nan v = true
    /\ nth_error (combine (Np.data gx) (Np.data gy)) k = Some c
    /\ Py.get Z.eqb est u = Some c.
Proof.
  intros Hrun Hu Hb Hm Hzero.
  assert (Hn : normalize belief = Ok (map (fun b => b / m) belief))
    by (unfold normalize; now rewrite Hm).
  destruct (argmax_nan (map (fun b => b / m) belief))
    as (k & v & Hk & Hv & Hnan).
  { exists (m / m). split; [|now apply zero_div_zero].
    apply (in_map (fun b => b / m)), amax_In, Hm. }
  destruct (initialize_belief_grid cfg) as [[[gx gy] ones]|e] eqn:Hg.
  - destruct (estimate_node_cell pdf cfg known_positions distances u
                gx gy ones belief _ k v Hg Hb Hn Hk Hv) as (c & Hc & He).
    destruct (belief_propagation_entries pdf cfg known_positions distances
                est Hrun) as (_ & Hget).
    destruct (Hget u Hu) as (c' & He' & Hgetu).
    rewrite He in He'. injection He' as <-.
    exists gx, gy, ones, k, v, c. auto 10.
  - unfold accumulated_belief in Hb. rewrite Hg in Hb. discriminate.
Qed.

Lemma zero_maximum_still_estimated_witness :
  exists k v,
    Np.argmax (map (fun b => b / 0) [0; 0; 0; 0]) = Ok k
    /\ nth_error (map (fun b => b / 0) [0; 0; 0; 0]) k = Some v
    /\ PrimFloat.is_nan v = true
    /\ Py.get Z.eqb [(3%Z, (0%Z, 0%Z))] 3%Z
       = nth_error [(0, 0); (1, 0); (0, 1); (1, 1)]%Z k.
Proof.
  destruct (zero_maximum_still_estimated Scipy.norm_pdf
              (mk_config 1 2 0.5) [(0%Z, (0, 0))] [((3%Z, 0%Z), 1000)]
              [(3%Z, (0%Z, 0%Z))] 3%Z [0; 0; 0; 0] 0)
    as (gx & gy & ones & k & v & c & Hg & _ & Hk & Hv & Hnan & Hc & Hget);
    try (vm_compute; reflexivity).
  - left. reflexivity.
  - exists k, v. repeat split; auto.
    vm_compute in Hg. injection Hg as <- <- _.
    exact (eq_trans Hget (eq_sym Hc)).
Defined.

(** C6, counterexample.  Node 3 has one known neighbour (node 0) and
    node 4 has none; both are in the result of the grid solver. *)
Lemma nodes_with_few_neighbors_estimated :
  let known : @Py.dict node point :=
    [(0%Z, (0, 0)); (1%Z, (10, 0)); (2%Z, (0, 10))] in
  let distances : distance_map := [((3%Z, 0%Z), 5); ((3%Z, 4%Z), 2)] in
  known_ends known distances 3%Z = [0%Z]
  /\ known_ends known distances 4%Z = []
  /\ belief_propagation Scipy.norm_pdf default_config known distances
     = Ok [(3%Z, (5%Z, 0%Z)); (4%Z, (0%Z, 0%Z))].
Proof. repeat split; vm_compute; reflexivity. Qed.

(** C6, as the code has it.  The grid solver has no minimum number of
    known neighbours: when [belief_propagation] returns, the keys of the
    result are exactly the unknown nodes, each with the cell its own
    estimate produced, whatever the number of its known neighbours. *)
Theorem every_unknown_node_estimated
  (pdf : float -> float -> float -> float) (cfg : config)
  (known_positions : @Py.dict node point) (distances : distance_map)
  (est : @Py.dict node cell) :
  belief_propagation pdf cfg known_positions distances = Ok est ->
  Py.keys est = unknown_nodes known_positions distances
  /\ forall u,
       In u (unknown_nodes known_positions distances) ->
       exists c,
         estimate_node pdf cfg known_positions distances u = Ok c
         /\ Py.get Z.eqb est u = Some c.
Proof. apply belief_propagation_entries. Qed.

Lemma every_unknown_node_estimated_witness :
  Py.keys [(3%Z, (2%Z, 0%Z)); (4%Z, (0%Z, 0%Z))]
  = unknown_nodes [(0%Z, (0, 0)); (1%Z, (10, 0))]
      [((3%Z, 0%Z), 2); ((3%Z, 4%Z), 2)].
Proof.
  apply (every_unknown_node_estimated Scipy.norm_pdf (mk_config 1 4 0.5)
           [(0%Z, (0, 0)); (1%Z, (10, 0))]
           [((3%Z, 0%Z), 2); ((3%Z, 4%Z), 2)]
           [(3%Z, (2%Z, 0%Z)); (4%Z, (0%Z, 0%Z))]).
  vm_compute; reflexivity.
Defined.

End BeliefFacts.

(** ** Direction of the distance keys *)

Module SymmetryFacts.

Import Trilateration BeliefPropagation PyFacts LocateFacts.

Lemma edge_eqb_spec (e1 e2 : edge) : reflect (e1 = e2) (edge_eqb e1 e2).
Proof.
  destruct e1 as [a b], e2 as [c d]. unfold edge_eqb. simpl.
  destruct (Z.eqb_spec a c), (Z.eqb_spec b d); constructor; congruence.
Qed.

Lemma get_flip_edge i j (distances : distance_map) :
  Py.get edge_eqb distances (j, i) = None ->
  forall e,
    Py.get edge_eqb (flip_edge i j distances) e =
    if edge_eqb e (j, i) then Py.get edge_eqb distances (i, j)
    else if edge_eqb e (i, j) then None
    else Py.get edge_eqb distances e.
Proof.
  induction distances as [|[k v] D IH]; intros Hji e; simpl in *.
  - destruct (edge_eqb e (j, i)), (edge_eqb e (i, j)); reflexivity.
  - destruct (edge_eqb_spec k (j, i)) as [->|Hk]; [discriminate|].
    specialize (IH Hji e).
    destruct (edge_eqb_spec k (i, j)) as [->|Hk']; simpl.
    + destruct (edge_eqb_spec (j, i) e) as [<-|He].
      * destruct (edge_eqb_spec (j, i) (j, i)); [reflexivity|congruence].
      * rewrite IH.
        destruct (edge_eqb_spec e (j, i)); [congruence|].
        destruct (edge_eqb_spec e (i, j)) as [E|He']; [reflexivity|].
        destruct (edge_eqb_spec (i, j) e); [congruence | reflexivity].
    + destruct (edge_eqb_spec k e) as [->|He].
      * destruct (edge_eqb_spec e (j, i)); [congruence|].
        destruct (edge_eqb_spec e (i, j)); [congruence | reflexivity].
      * rewrite IH.
        destruct (edge_eqb_spec e (j, i)) as [E|]; [|reflexivity].
        destruct (edge_eqb_spec k (i, j)); [congruence | reflexivity].
Qed.

Lemma get_either_flip_edge i j (distances : distance_map) :
  Py.get edge_eqb distances (j, i) = None ->
  forall a b,
    get_either (flip_edge i j distances) a b = get_either distances a b.
Proof.
  intros Hji a b. unfold get_either.
  rewrite !(get_flip_edge i j distances Hji).
  destruct (edge_eqb_spec (a, b) (j, i)) as [[= -> ->]|Hab].
  - rewrite Hji.
    destruct (edge_eqb_spec (i, j) (j, i)) as [[= ->]|].
    + now destruct (Py.get edge_eqb distances (j, j)).
    + destruct (edge_eqb_spec (i, j) (i, j)); [|congruence].
      now destruct (Py.get edge_eqb distances (i, j)).
  - destruct (edge_eqb_spec (a, b) (i, j)) as [[= -> ->]|Hab'].
    + destruct (edge_eqb_spec (j, i) (j, i)); [|congruence].
      rewrite Hji. now destruct (Py.get edge_eqb distances (i, j)).
    + destruct (edge_eqb_spec (b, a) (j, i)) as [[= -> ->]|];
        [congruence|].
      destruct (edge_eqb_spec (b, a) (i, j)) as [[= -> ->]|];
        [congruence | reflexivity].
Qed.

(** The comprehension of [known_neighbors] reads [distances] through
    [get_either] only. *)
Lemma known_neighbors_either known (distances : distance_map) id2 :
  known_neighbors known distances id2 =
  flat_map
    (fun k =>
       match get_either distances id2 k with
       | Some d => [(k, d)]
       | None => []
       end)
    (Py.keys known).
Proof.
  unfold known_neighbors. apply flat_map_ext. intros k.
  unfold get_either, Py.mem.
  destruct (Py.get edge_eqb distances (id2, k)); simpl; [reflexivity|].
  destruct (Py.get edge_eqb distances (k, id2)); reflexivity.
Qed.

(** C7, counterexample.  Iterative solver: with the pair of nodes 0 and 3
    materialised as [(0, 3)], node 3 is estimated; with the same pair
    materialised as [(3, 0)], no edge has a known first end and an unknown
    second end, and nothing is estimated.  Grid solver: with the pair
    materialised as [(3, 0)] node 3 is estimated; with [(0, 3)] the
    subscript [distances[(3, 0)]] raises [KeyError]. *)
Lemma direction_of_a_pair_matters :
  let known : @Py.dict node point :=
    [(0%Z, (0, 0)); (1%Z, (6, 0)); (2%Z, (3, 1004))]%float in
  let distances : distance_map :=
    [((0%Z, 3%Z), 5); ((3%Z, 1%Z), 5); ((3%Z, 2%Z), 1000.015)]%float in
  Py.mem edge_eqb distances (3%Z, 0%Z) = false
  /\ Trilateration.locate_other_vehicles (R := reference)
       default_tolerance known distances
     = Some (Ok (mk_loop (known ++ [(3%Z, (3, 4)%float)])
                   [(3%Z, (3, 4)%float)] 1))
  /\ Trilateration.locate_other_vehicles (R := reference)
       default_tolerance known (flip_edge 0 3 distances)
     = Some (Ok (mk_loop known [] 1))
  /\ belief_propagation Scipy.norm_pdf default_config
       [(0%Z, (0, 0)%float)] [((3%Z, 0%Z), 5%float)]
     = Ok [(3%Z, (5%Z, 0%Z))]
  /\ belief_propagation Scipy.norm_pdf default_config
       [(0%Z, (0, 0)%float)] (flip_edge 3 0 [((3%Z, 0%Z), 5%float)])
     = Raise KeyError.
Proof. repeat split; vm_compute; reflexivity. Qed.

(** C7, as the code has it.  The iterative solver reads the distance of a
    pair in either direction when it collects the known neighbours of a
    node: with a pair materialised in one direction only, the sorted
    neighbour list of every node is the same as with the pair materialised
    in the other direction.  The direction of a key still decides whether
    the edge is acted on: an edge whose first end is not known, or whose
    second end is, changes nothing. *)
Theorem neighbors_either_direction {R : Runtime}
  (known : @Py.dict node point) (distances : distance_map) (i j : node) :
  Py.mem edge_eqb distances (j, i) = false ->
  (forall id2,
      neighbors known (flip_edge i j distances) id2
      = neighbors known distances id2)
  /\ (forall tolerance st d,
         Py.mem Z.eqb (known_positions st) i
         && negb (Py.mem Z.eqb (known_positions st) j) = false ->
         visit_edge tolerance distances st ((i, j), d) = Ok st).
Proof.
  intros Hji. split.
  - intros id2. unfold neighbors. rewrite !known_neighbors_either.
    f_equal. apply flat_map_ext. intros k.
    rewrite get_either_flip_edge; [reflexivity|].
    unfold Py.mem in Hji.
    now destruct (Py.get edge_eqb distances (j, i)).
  - intros tolerance st d H. unfold visit_edge. simpl. now rewrite H.
Qed.

Lemma neighbors_either_direction_witness :
  neighbors (R := reference) [(0%Z, (0, 0)); (1%Z, (6, 0))]%float
    (flip_edge 0 3 [((0%Z, 3%Z), 5); ((3%Z, 1%Z), 4)]%float) 3%Z
  = [(1%Z, 4); (0%Z, 5)]%float.
Proof.
  destruct (neighbors_either_direction (R := reference)
              [(0%Z, (0, 0)); (1%Z, (6, 0))]%float
              [((0%Z, 3%Z), 5); ((3%Z, 1%Z), 4)]%float 0%Z 3%Z eq_refl)
    as [H _].
  rewrite H. reflexivity.
Defined.

End SymmetryFacts.

(** ** Order of selection *)

Module OrderFacts.

Import Trilateration BeliefPropagation PyFacts FloatFacts LocateFacts
  BeliefFacts SymmetryFacts.
#[local] Open Scope float_scope.

(** *** The sort of the neighbour list *)






(** *** The scan of [np.argmax] *)



(** *** The iteration order of the set of unknown nodes *)

Lemma get_combine_estimates
  (estimate : node -> result cell) (order : list node) (cells : list cell) :
  Forall2 (fun u c => estimate u = Ok c) order cells ->
  forall u,
    Py.get Z.eqb (combine order cells) u =
    if in_dec Z.eq_dec u order
    then match estimate u with Ok c => Some c | Raise _ => None end
    else None.
Proof.
  induction 1 as [|w c order cells Hc Hall IH]; intros u; simpl;
    [reflexivity|].
  destruct (Z.eqb_spec w u) as [->|Hne].
  - rewrite Hc. destruct (Z.eq_dec u u); [reflexivity | congruence].
  - rewrite IH. destruct (Z.eq_dec w u); [congruence|].
    destruct (in_dec Z.eq_dec u order); reflexivity.
Qed.

Lemma belief_propagation_over_get pdf cfg known distances order est :
  NoDup order ->
  belief_propagation_over pdf cfg order known distances = Ok est ->
  forall u,
    Py.get Z.eqb est u =
    if in_dec Z.eq_dec u order
    then match estimate_node pdf cfg known distances u with
         | Ok c => Some c
         | Raise _ => None
         end
    else None.
Proof.
  intros Hnd Hrun.
  apply belief_propagation_over_entries in Hrun; [|exact Hnd|intros ? _ []].
  destruct Hrun as (cells & -> & Hall). simpl.
  now apply get_combine_estimates.
Qed.




End OrderFacts.

(** * Further properties of the code *)

(** ** The iterative solver: which nodes are estimated *)

Module LocateExtras.

Import Trilateration PyFacts LocateFacts.
#[local] Open Scope nat_scope.

Lemma known_neighbors_app known new distances id2 :
  known_neighbors (known ++ new) distances id2
  = known_neighbors known distances id2
    ++ known_neighbors new distances id2.
Proof.
  unfold known_neighbors, Py.keys. now rewrite map_app, flat_map_app.
Qed.

Lemma keys_set_In {V} (d : @Py.dict node V) k v x :
  In x (Py.keys (Py.set Z.eqb d k v)) -> In x (Py.keys d) \/ x = k.
Proof.
  induction d as [|[k' v'] d IH]; simpl.
  - intros [<-|[]]. now right.
  - destruct (Z.eqb k' k); simpl; intros [<-|H]; auto.
    destruct (IH H); auto.
Qed.

Section Generic.

Context {R : Runtime} {sorts : Sorts R}.

Lemma neighbors_length known distances id2 :
  length (neighbors known distances id2)
  = length (known_neighbors known distances id2).
Proof.
  symmetry. apply Permutation_length, sorted_permutation.
Qed.

(** More known positions never shorten a neighbour list. *)
Lemma neighbors_length_app known new distances id2 :
  length (neighbors known distances id2)
  <= length (neighbors (known ++ new) distances id2).
Proof.
  rewrite !neighbors_length, known_neighbors_app, length_app. lia.
Qed.

(** What one edge can do, with the reason for an estimate: the first end
    is known, the second is not, and the second has three known
    neighbours or more. *)
Lemma visit_edge_estimate tolerance distances st item st' :
  visit_edge tolerance distances st item = Ok st' ->
  (known_positions st' = known_positions st
   /\ estimated_positions st' = estimated_positions st
   /\ progress_made st' = progress_made st)
  \/ exists p,
       known_positions st'
       = known_positions st ++ [(snd (fst item), p)]
       /\ estimated_positions st'
          = Py.set Z.eqb (estimated_positions st) (snd (fst item)) p
       /\ Py.mem Z.eqb (known_positions st) (fst (fst item)) = true
       /\ Py.mem Z.eqb (known_positions st) (snd (fst item)) = false
       /\ 3 <= length (neighbors (known_positions st) distances
                         (snd (fst item))).
Proof.
  unfold visit_edge.
  destruct (Py.mem Z.eqb (known_positions st) (fst (fst item))) eqn:M1;
    simpl; [|intros [= <-]; auto].
  destruct (Py.mem Z.eqb (known_positions st) (snd (fst item))) eqn:M2;
    simpl; [intros [= <-]; auto|].
  destruct (neighbors (known_positions st) distances (snd (fst item)))
    as [|[k1 d1] [|[k2 d2] [|[k3 d3] rest]]] eqn:N;
    try (intros [= <-]; simpl; auto).
  destruct (Py.item Z.eqb (known_positions st) k1) as [p1|]; simpl;
    [|discriminate].
  destruct (Py.item Z.eqb (known_positions st) k2) as [p2|]; simpl;
    [|discriminate].
  destruct (Py.item Z.eqb (known_positions st) k3) as [p3|]; simpl;
    [|discriminate].
  destruct (trilaterate tolerance p1 p2 p3 d1 d2 d3) as [[p|]|e]; simpl;
    try discriminate; intros [= <-]; simpl; auto.
  right. exists p.
  rewrite (set_absent _ _ _ (mem_false_get _ _ M2)).
  repeat split; auto. lia.
Qed.

Section References.

Variable tolerance : float.
Variable distances : distance_map.

(** Every estimated node is the second end of a distance key whose first
    end is known, and has three known neighbours or more. *)
#[local] Abbreviation referenced known est :=
  (forall k,
      In k (Py.keys est) ->
      (exists id1 d, In ((id1, k), d) distances /\ In id1 (Py.keys known))
      /\ 3 <= length (neighbors known distances k)).

Lemma visit_edge_referenced st item st' :
  In item distances ->
  referenced (known_positions st) (estimated_positions st) ->
  visit_edge tolerance distances st item = Ok st' ->
  referenced (known_positions st') (estimated_positions st').
Proof.
  intros Hin Href Hv.
  destruct (visit_edge_estimate _ _ _ _ _ Hv)
    as [(-> & -> & _)|(p & -> & -> & M1 & M2 & H3)]; [exact Href|].
  intros k Hk. apply keys_set_In in Hk. destruct Hk as [Hk| ->].
  - destruct (Href k Hk) as ((id1 & d & HD & Hid1) & Hlen). split.
    + exists id1, d. split; [exact HD|].
      rewrite keys_app. apply in_or_app. now left.
    + etransitivity; [exact Hlen | apply neighbors_length_app].
  - split.
    + destruct item as [[id1 id2] d]. simpl in *. exists id1, d.
      split; [exact Hin|]. rewrite keys_app. apply in_or_app. left.
      now apply mem_true_In.
    + etransitivity; [exact H3 | apply neighbors_length_app].
Qed.

Lemma loop_body_referenced max_iter st c :
  referenced (loop_known st) (loop_estimated st) ->
  loop_body tolerance distances max_iter st = Ok c ->
  referenced (loop_known (state_of c)) (loop_estimated (state_of c)).
Proof.
  intros Href. unfold loop_body.
  destruct (run_pass tolerance distances (loop_known st) (loop_estimated st))
    as [ps|e] eqn:Hps; simpl; [|discriminate].
  assert (Hp : referenced (known_positions ps) (estimated_positions ps)).
  { unfold run_pass in Hps. revert Hps.
    apply (for_each_invariant
             (fun s => referenced (known_positions s)
                         (estimated_positions s))).
    - intros s x s' Hin Hs Hv. eapply visit_edge_referenced; eauto.
    - exact Href. }
  destruct (max_iter <? S (iteration_count st)); [intros [= <-]; exact Hp|].
  destruct (negb (progress_made ps) && _); [intros [= <-]; exact Hp|].
  destruct (negb (progress_made ps)); intros [= <-]; exact Hp.
Qed.

End References.

(** X1.  Every node of the result of [locate_other_vehicles] is the second
    end of a key of [distances] whose first end is in [known_positions]
    when the call returns, and has at least three neighbours there: no
    node is estimated from fewer than three references, nor on a key it
    only starts. *)
Theorem estimated_nodes_have_three_references
  (tolerance : float) (known : @Py.dict node point)
  (distances : distance_map) (st : loop_state) (k : node) :
  locate_other_vehicles tolerance known distances = Some (Ok st) ->
  In k (Py.keys (loop_estimated st)) ->
  (exists id1 d,
      In ((id1, k), d) distances /\ In id1 (Py.keys (loop_known st)))
  /\ 3 <= length (neighbors (loop_known st) distances k).
Proof.
  unfold locate_other_vehicles, locate_other_vehicles_within.
  intros Hrun. revert k.
  revert Hrun.
  apply (while_loop_invariant
           (fun s => forall k,
                In k (Py.keys (loop_estimated s)) ->
                (exists id1 d,
                    In ((id1, k), d) distances
                    /\ In id1 (Py.keys (loop_known s)))
                /\ 3 <= length (neighbors (loop_known s) distances k))).
  - intros s c. apply loop_body_referenced.
  - intros k [].
Qed.

Lemma for_each_skip tolerance distances (l : list (edge * float)) st :
  (forall item,
      In item l ->
      Py.mem Z.eqb (known_positions st) (fst (fst item))
      && negb (Py.mem Z.eqb (known_positions st) (snd (fst item))) = false) ->
  Py.for_each (visit_edge tolerance distances) l st = Ok st.
Proof.
  induction l as [|x l IH]; intros H; simpl; [reflexivity|].
  unfold visit_edge at 1. rewrite (H x) by now left. simpl.
  apply IH. intros item Hin. apply H. now right.
Qed.

(** X2.  When no key of [distances] has its first end in [known_positions]
    and its second end outside, [locate_other_vehicles] estimates nothing:
    it returns an empty result after one pass at most and leaves
    [known_positions] as it was, also when unknown nodes have known
    neighbours through keys in the other direction. *)
Theorem nothing_estimated_without_directed_edge
  (tolerance : float) (known : @Py.dict node point)
  (distances : distance_map) :
  (forall item,
      In item distances ->
      Py.mem Z.eqb known (fst (fst item))
      && negb (Py.mem Z.eqb known (snd (fst item))) = false) ->
  exists passes,
    locate_other_vehicles tolerance known distances
    = Some (Ok (mk_loop known [] passes))
    /\ passes <= 1.
Proof.
  intros H. unfold locate_other_vehicles, locate_other_vehicles_within.
  simpl. destruct (0 <? n_unknown known distances) eqn:E.
  - exists 1. split; [|lia]. unfold loop_body, run_pass.
    rewrite for_each_skip by exact H. simpl.
    destruct (max_iterations known distances <? 1); reflexivity.
  - exists 0. split; [reflexivity | lia].
Qed.

(** X3.  The sorted neighbour list of a node holds exactly the keys [k] of
    [known_positions] for which [distances] has the pair in one direction
    or the other, each with the distance that [get_either] reads (the
    direction [(id2, k)] first): sorting neither drops nor invents an
    entry. *)
Theorem neighbors_are_known_with_distance
  (known : @Py.dict node point) (distances : distance_map)
  (id2 k : node) (d : float) :
  In (k, d) (neighbors known distances id2) <->
  In k (Py.keys known) /\ get_either distances id2 k = Some d.
Proof.
  unfold neighbors.
  assert (Hperm : In (k, d) (sorted (known_neighbors known distances id2))
                  <-> In (k, d) (known_neighbors known distances id2)).
  { split; apply Permutation_in;
      [apply Permutation_sym|]; apply sorted_permutation. }
  rewrite Hperm, SymmetryFacts.known_neighbors_either, in_flat_map.
  split.
  - intros (k' & Hk' & Hin).
    destruct (get_either distances id2 k') as [d'|] eqn:E; [|destruct Hin].
    destruct Hin as [[= <- <-]|[]]. auto.
  - intros (Hk & E). exists k. split; [exact Hk|]. rewrite E. now left.
Qed.

(** X4.  When [locate_other_vehicles] returns as many estimates as there
    are unknown nodes, the keys of the result are the unknown nodes, each
    once. *)
Theorem complete_result_covers_unknown_nodes
  (tolerance : float) (known : @Py.dict node point)
  (distances : distance_map) (st : loop_state) :
  locate_other_vehicles tolerance known distances = Some (Ok st) ->
  length (loop_estimated st) = length (unknown_nodes known distances) ->
  Permutation (Py.keys (loop_estimated st)) (unknown_nodes known distances).
Proof.
  intros Hrun Hlen.
  destruct (locate_other_vehicles_grows _ _ _ _ Hrun) as (_ & Hnd & Hincl).
  apply NoDup_Permutation_bis; auto.
  unfold Py.keys. rewrite length_map. lia.
Qed.

End Generic.

Lemma estimated_nodes_have_three_references_witness :
  3 <= length
         (neighbors (R := reference)
            [(0%Z, (0, 0)); (1%Z, (6, 0)); (2%Z, (3, 1004));
             (3%Z, (3, 4))]%float
            [((0%Z, 3%Z), 5); ((3%Z, 1%Z), 5); ((3%Z, 2%Z), 1000.015)]%float
            3%Z).
Proof.
  apply (estimated_nodes_have_three_references (R := reference)
           default_tolerance
           [(0%Z, (0, 0)); (1%Z, (6, 0)); (2%Z, (3, 1004))]%float
           [((0%Z, 3%Z), 5); ((3%Z, 1%Z), 5); ((3%Z, 2%Z), 1000.015)]%float
           (mk_loop
              [(0%Z, (0, 0)); (1%Z, (6, 0)); (2%Z, (3, 1004));
               (3%Z, (3, 4))]%float
              [(3%Z, (3, 4)%float)] 1)
           3%Z).
  - vm_compute; reflexivity.
  - left. reflexivity.
Defined.

Lemma nothing_estimated_without_directed_edge_witness :
  exists passes,
    locate_other_vehicles (R := reference) default_tolerance
      [(0%Z, (0, 0)); (1%Z, (6, 0)); (2%Z, (3, 1004))]%float
      [((3%Z, 0%Z), 5); ((3%Z, 1%Z), 5); ((3%Z, 2%Z), 1000.015)]%float
    = Some (Ok (mk_loop
                  [(0%Z, (0, 0)); (1%Z, (6, 0)); (2%Z, (3, 1004))]%float
                  [] passes))
    /\ passes <= 1.
Proof.
  apply nothing_estimated_without_directed_edge.
  intros item [<-|[<-|[<-|[]]]]; reflexivity.
Defined.

Lemma neighbors_are_known_with_distance_witness :
  In (1%Z, 4%float)
    (neighbors (R := reference) [(0%Z, (0, 0)); (1%Z, (6, 0))]%float
       [((0%Z, 3%Z), 5); ((3%Z, 1%Z), 4)]%float 3%Z).
Proof.
  apply (neighbors_are_known_with_distance (R := reference)
           [(0%Z, (0, 0)); (1%Z, (6, 0))]%float
           [((0%Z, 3%Z), 5); ((3%Z, 1%Z), 4)]%float 3%Z 1%Z 4%float).
  split; [right; left; reflexivity | reflexivity].
Defined.

Lemma complete_result_covers_unknown_nodes_witness :
  Permutation [3%Z]
    (unknown_nodes
       [(0%Z, (0, 0)); (1%Z, (6, 0)); (2%Z, (3, 1004))]%float
       [((0%Z, 3%Z), 5); ((3%Z, 1%Z), 5); ((3%Z, 2%Z), 1000.015)]%float).
Proof.
  apply (complete_result_covers_unknown_nodes (R := reference)
           default_tolerance
           [(0%Z, (0, 0)); (1%Z, (6, 0)); (2%Z, (3, 1004))]%float
           [((0%Z, 3%Z), 5); ((3%Z, 1%Z), 5); ((3%Z, 2%Z), 1000.015)]%float
           (mk_loop
              [(0%Z, (0, 0)); (1%Z, (6, 0)); (2%Z, (3, 1004));
               (3%Z, (3, 4))]%float
              [(3%Z, (3, 4)%float)] 1)).
  - vm_compute; reflexivity.
  - reflexivity.
Defined.

End LocateExtras.

(** ** The grid solver: where it returns and what it returns *)

Module GridExtras.

Import BeliefPropagation PyFacts FloatFacts NpFacts BeliefFacts.
#[local] Open Scope Z_scope.

(** *** The grid *)

(** [np.arange] with a positive step: multiples of the step below the
    stop. *)
Lemma arange_In stop step xs x :
  0 < step ->
  Np.arange stop step = Ok xs ->
  In x xs ->
  0 <= x < stop /\ (step | x).
Proof.
  intros Hstep. unfold Np.arange.
  destruct (Z.eqb_spec step 0) as [->|_]; [lia|].
  intros [= <-]. rewrite in_map_iff. intros (i & <- & Hi).
  apply in_seq in Hi. split; [|exists (Z.of_nat i); reflexivity].
  assert (Hc : Z.of_nat i < - (- stop / step)) by lia.
  pose proof (Z.mul_div_le (- stop) step Hstep).
  pose proof (Z.mul_succ_div_gt (- stop) step Hstep).
  nia.
Qed.

Lemma arange_nonempty stop step :
  0 < step -> 0 < stop ->
  exists xs, Np.arange stop step = Ok (0 :: xs).
Proof.
  intros Hstep Hstop. unfold Np.arange.
  destruct (Z.eqb_spec step 0) as [->|_]; [lia|].
  assert (Hlen : (0 < Z.to_nat (- (- stop / step)))%nat).
  { assert (- stop / step < 0) by (apply Z.div_lt_upper_bound; lia). lia. }
  destruct (Z.to_nat (- (- stop / step))) as [|m]; [lia|].
  simpl. eauto.
Qed.

Lemma arange_empty stop step :
  0 < step -> stop <= 0 -> Np.arange stop step = Ok [].
Proof.
  intros Hstep Hstop. unfold Np.arange.
  destruct (Z.eqb_spec step 0) as [->|_]; [lia|].
  assert (0 <= - stop / step) by (apply Z.div_pos; lia).
  replace (Z.to_nat (- (- stop / step))) with 0%nat by lia. reflexivity.
Qed.

Lemma meshgrid_In {A} (xs ys : list A) gx gy :
  Np.meshgrid xs ys = (gx, gy) ->
  (forall x, In x (Np.data gx) -> In x xs)
  /\ (forall y, In y (Np.data gy) -> In y ys).
Proof.
  unfold Np.meshgrid. intros [= <- <-]. simpl. split.
  - intros x. rewrite in_flat_map. intros (_ & _ & H). exact H.
  - intros y. rewrite in_flat_map. intros (y' & Hy' & H).
    apply in_map_iff in H. destruct H as (_ & <- & _). exact Hy'.
Qed.

Lemma at_index_In {A} (a : Np.ndarray A) ij x :
  Np.at_index a ij = Ok x -> In x (Np.data a).
Proof.
  unfold Np.at_index. destruct (_ && _); [|discriminate].
  destruct (nth_error (Np.data a) _) eqn:E; [|discriminate].
  intros [= <-]. eapply nth_error_In, E.
Qed.

Lemma estimate_node_on_grid pdf cfg known distances u x y :
  0 < grid_size cfg ->
  estimate_node pdf cfg known distances u = Ok (x, y) ->
  (0 <= x < area_size cfg /\ (grid_size cfg | x))
  /\ (0 <= y < area_size cfg /\ (grid_size cfg | y)).
Proof.
  intros Hstep. unfold estimate_node.
  destruct (initialize_belief_grid cfg) as [[[gx gy] ones]|e] eqn:Hg;
    simpl; [|discriminate].
  destruct (accumulated_belief pdf cfg known distances u); simpl;
    [|discriminate].
  destruct (normalize _); simpl; [|discriminate].
  destruct (Np.argmax _) as [k|]; simpl; [|discriminate].
  destruct (Np.at_index gx _) as [x'|] eqn:Ex; simpl; [|discriminate].
  destruct (Np.at_index gy _) as [y'|] eqn:Ey; simpl; [|discriminate].
  intros [= <- <-].
  destruct (initialize_belief_grid_Ok cfg _ _ _ Hg) as (xs & Hxs & Hm & _).
  destruct (meshgrid_In xs xs gx gy Hm) as (Hx & Hy).
  apply at_index_In in Ex, Ey.
  split; eapply arange_In; eauto.
Qed.

(** X5.  With integer grid parameters (as the defaults 1 and 100 are)
    and a positive [grid_size], every position the grid solver returns is
    a point of the grid: both coordinates are multiples of [grid_size] in
    [[0, area_size)].  ([np.arange] is exact on ints; a float step is not
    covered: there the last value can reach [area_size].) *)
Theorem estimates_lie_on_the_grid
  (pdf : float -> float -> float -> float) (cfg : config)
  (known : @Py.dict node point) (distances : distance_map)
  (est : @Py.dict node cell) (u : node) (x y : Z) :
  0 < grid_size cfg ->
  belief_propagation pdf cfg known distances = Ok est ->
  Py.get Z.eqb est u = Some (x, y) ->
  (0 <= x < area_size cfg /\ (grid_size cfg | x))
  /\ (0 <= y < area_size cfg /\ (grid_size cfg | y)).
Proof.
  intros Hstep Hrun Hget.
  rewrite (OrderFacts.belief_propagation_over_get pdf cfg known distances
             _ est (NoDup_nodup _ _) Hrun u) in Hget.
  destruct (in_dec Z.eq_dec u _); [|discriminate].
  destruct (estimate_node pdf cfg known distances u) as [c|] eqn:E;
    [|discriminate].
  injection Hget as ->. eapply estimate_node_on_grid; eauto.
Qed.

Lemma estimates_lie_on_the_grid_witness :
  (0 <= 4 < 6 /\ (2 | 4)) /\ (0 <= 0 < 6 /\ (2 | 0)).
Proof.
  apply (estimates_lie_on_the_grid Scipy.norm_pdf
           (mk_config 2 6 0.5%float) [(0%Z, (0, 0)%float)]
           [((3%Z, 0%Z), 4%float)] [(3%Z, (4, 0))] 3%Z 4 0).
  - reflexivity.
  - vm_compute; reflexivity.
  - reflexivity.
Defined.

(** *** When the solver returns *)

Lemma argmax_scan_lt (l : list float) : forall i mp best,
  (best < i)%nat -> (Np.argmax_scan l i mp best < i + length l)%nat.
Proof.
  induction l as [|x l IH]; intros i mp best Hb; simpl; [lia|].
  destruct (PrimFloat.leb x mp).
  - specialize (IH (S i) mp best). lia.
  - destruct (PrimFloat.is_nan x); [lia|].
    specialize (IH (S i) x i). lia.
Qed.

Lemma argmax_Ok (l : list float) :
  l <> [] ->
  exists k v, Np.argmax l = Ok k /\ nth_error l k = Some v.
Proof.
  destruct l as [|x l]; [congruence|]. intros _. simpl.
  destruct (PrimFloat.is_nan x).
  - exists 0%nat, x. auto.
  - pose proof (argmax_scan_lt l 1 x 0 ltac:(lia)) as Hlt.
    destruct (nth_error (x :: l) (Np.argmax_scan l 1 x 0)) as [v|] eqn:E.
    + eauto.
    + apply nth_error_None in E. simpl in E. lia.
Qed.

Lemma mem_edge_In (distances : distance_map) e d :
  In (e, d) distances -> Py.mem edge_eqb distances e = true.
Proof.
  unfold Py.mem. induction distances as [|[e' d'] D IH]; simpl; [intros []|].
  intros [[= -> ->]|H].
  - destruct (SymmetryFacts.edge_eqb_spec e e); [reflexivity | congruence].
  - destruct (edge_eqb e' e); [reflexivity | now apply IH].
Qed.

Lemma known_ends_In known distances u nbr :
  In nbr (known_ends known distances u) <->
  Py.mem Z.eqb known nbr = true
  /\ exists d,
       (In ((nbr, u), d) distances)
       \/ (u <> nbr /\ In ((u, nbr), d) distances).
Proof.
  unfold known_ends. rewrite in_flat_map. split.
  - intros ([[a b] d] & Hin & H). simpl in H.
    destruct (Z.eqb_spec u b) as [->|Hb].
    + rewrite orb_true_r in H.
      destruct (Py.mem Z.eqb known a) eqn:M; [|destruct H].
      destruct H as [<-|[]]. split; [exact M|]. exists d. now left.
    + rewrite orb_false_r in H.
      destruct (Z.eqb_spec u a) as [->|Ha]; [|destruct H].
      destruct (Py.mem Z.eqb known b) eqn:M; [|destruct H].
      destruct H as [<-|[]]. split; [exact M|]. exists d. right. auto.
  - intros (M & d & [Hin|[Hne Hin]]).
    + exists ((nbr, u), d). split; [exact Hin|]. simpl.
      rewrite Z.eqb_refl, orb_true_r, M. now left.
    + exists ((u, nbr), d). split; [exact Hin|]. simpl.
      rewrite Z.eqb_refl. simpl.
      destruct (Z.eqb_spec u nbr); [contradiction|]. rewrite M. now left.
Qed.

Lemma item_mem_true {K V} (eqb : K -> K -> bool) (d : @Py.dict K V) k :
  Py.mem eqb d k = true -> exists v, Py.item eqb d k = Ok v.
Proof. unfold Py.mem, Py.item. destruct (Py.get eqb d k); eauto. discriminate. Qed.

Lemma item_mem_false {K V} (eqb : K -> K -> bool) (d : @Py.dict K V) k :
  Py.mem eqb d k = false -> Py.item eqb d k = Raise KeyError.
Proof. unfold Py.mem, Py.item. destruct (Py.get eqb d k); congruence. Qed.

Lemma comprehension_Ok {A B} (f : A -> result B) (l : list A) :
  (forall x, In x l -> exists y, f x = Ok y) ->
  exists ys, Py.comprehension f l = Ok ys.
Proof.
  induction l as [|x l IH]; intros H; simpl; [eauto|].
  destruct (H x (or_introl eq_refl)) as [y ->].
  destruct IH as [ys ->]; [intros; apply H; now right|].
  simpl. eauto.
Qed.

Lemma comprehension_Raise {A B} (f : A -> result B) (l : list A) e :
  (forall x, In x l -> (exists y, f x = Ok y) \/ f x = Raise e) ->
  (exists x, In x l /\ f x = Raise e) ->
  Py.comprehension f l = Raise e.
Proof.
  induction l as [|x l IH]; intros H (x' & Hin & Hx'); [destruct Hin|].
  simpl. destruct (H x (or_introl eq_refl)) as [[y Hy]|Hy]; rewrite Hy;
    simpl; [|reflexivity].
  rewrite IH; [reflexivity | intros; apply H; now right |].
  destruct Hin as [->|Hin]; [congruence|eauto].
Qed.

(** One element of the comprehension of [belief_propagation]: it is
    read, or the subscript of [distances] raises [KeyError]. *)
Lemma measurement_cases (known : @Py.dict node point)
  (distances : distance_map) (u nbr : node) :
  Py.mem Z.eqb known nbr = true ->
  let f := fun nbr =>
             nbr_pos <- Py.item Z.eqb known nbr ;;
             d <- Py.item edge_eqb distances (u, nbr) ;;
             Ok (nbr, nbr_pos, d) in
  (Py.mem edge_eqb distances (u, nbr) = true -> exists m, f nbr = Ok m)
  /\ (Py.mem edge_eqb distances (u, nbr) = false -> f nbr = Raise KeyError).
Proof.
  intros Hk f. unfold f, Py.item, Py.mem in *.
  destruct (Py.get Z.eqb known nbr) as [p|]; [|discriminate].
  cbn [Py.bind].
  split; intros Hd;
    match goal with
    | |- context [Py.get edge_eqb distances ?e] =>
        change (Py.get edge_eqb distances e)
          with (Py.get edge_eqb distances (u, nbr)) in *;
        destruct (Py.get edge_eqb distances (u, nbr)) as [d|]
    end; try discriminate; cbn [Py.bind]; eauto.
Qed.

Lemma known_ends_known known distances u nbr :
  In nbr (known_ends known distances u) -> Py.mem Z.eqb known nbr = true.
Proof. intros H. now apply known_ends_In in H. Qed.

Lemma measurements_cases known distances u :
  (exists ms, measurements known distances u = Ok ms)
  \/ measurements known distances u = Raise KeyError.
Proof.
  unfold measurements.
  destruct (forallb (fun nbr => Py.mem edge_eqb distances (u, nbr))
              (known_ends known distances u)) eqn:E.
  - left. apply comprehension_Ok. intros nbr Hin.
    rewrite forallb_forall in E.
    apply (measurement_cases known distances u nbr);
      [eapply known_ends_known; eauto | now apply E].
  - right. apply comprehension_Raise.
    + intros nbr Hin.
      destruct (measurement_cases known distances u nbr
                  (known_ends_known _ _ _ _ Hin)) as [H1 H2].
      destruct (Py.mem edge_eqb distances (u, nbr)) eqn:M;
        [left; exact (H1 M) | right; exact (H2 M)].
    + assert (H : exists nbr, In nbr (known_ends known distances u)
                    /\ Py.mem edge_eqb distances (u, nbr) = false).
      { clear - E. induction (known_ends known distances u) as [|x l IH];
          simpl in E; [discriminate|].
        destruct (Py.mem edge_eqb distances (u, x)) eqn:M.
        - destruct (IH E) as (nbr & Hin & Hm). exists nbr. split; auto.
          now right.
        - exists x. split; [now left | exact M]. }
      destruct H as (nbr & Hin & Hm). exists nbr. split; [exact Hin|].
      apply (measurement_cases known distances u nbr);
        [eapply known_ends_known; eauto | exact Hm].
Qed.

Lemma measurements_Ok known distances u :
  (forall nbr, In nbr (known_ends known distances u) ->
               Py.mem edge_eqb distances (u, nbr) = true) ->
  exists ms, measurements known distances u = Ok ms.
Proof.
  intros H. unfold measurements. apply comprehension_Ok. intros nbr Hin.
  apply (measurement_cases known distances u nbr);
    [eapply known_ends_known; eauto | now apply H].
Qed.

Lemma measurements_KeyError known distances u nbr :
  In nbr (known_ends known distances u) ->
  Py.mem edge_eqb distances (u, nbr) = false ->
  measurements known distances u = Raise KeyError.
Proof.
  intros Hin Hmem. unfold measurements. apply comprehension_Raise.
  - intros x Hx.
    destruct (measurement_cases known distances u x
                (known_ends_known _ _ _ _ Hx)) as [H1 H2].
    destruct (Py.mem edge_eqb distances (u, x)) eqn:M;
      [left; exact (H1 M) | right; exact (H2 M)].
  - exists nbr. split; [exact Hin|].
    apply (measurement_cases known distances u nbr);
      [eapply known_ends_known; eauto | exact Hmem].
Qed.

Section ValidGrid.

Variable pdf : float -> float -> float -> float.
Variable cfg : config.
Variable known : @Py.dict node point.
Variable distances : distance_map.
Hypothesis grid_size_pos : 0 < grid_size cfg.
Hypothesis area_size_pos : 0 < area_size cfg.

Lemma initialize_belief_grid_nonempty :
  exists gx gy ones xs,
    initialize_belief_grid cfg = Ok (gx, gy, ones)
    /\ Np.meshgrid (0 :: xs) (0 :: xs) = (gx, gy)
    /\ ones = map (fun _ => 1%float) (Np.data gx).
Proof.
  destruct (arange_nonempty _ _ grid_size_pos area_size_pos) as [xs Hxs].
  unfold initialize_belief_grid. rewrite Hxs. cbn [Py.bind].
  exists (fst (Np.meshgrid (0 :: xs) (0 :: xs))),
    (snd (Np.meshgrid (0 :: xs) (0 :: xs))),
    (map (fun _ => 1%float)
       (Np.data (fst (Np.meshgrid (0 :: xs) (0 :: xs))))),
    xs.
  repeat split.
Qed.

(** On a grid with a cell, a node whose measurements are read without
    [KeyError] gets an estimate. *)
Lemma estimate_node_Ok u ms :
  measurements known distances u = Ok ms ->
  exists c, estimate_node pdf cfg known distances u = Ok c.
Proof.
  intros Hms.
  destruct initialize_belief_grid_nonempty
    as (gx & gy & ones & xs & Hg & Hm & Hones).
  assert (Hb : exists belief,
             accumulated_belief pdf cfg known distances u = Ok belief).
  { unfold accumulated_belief. rewrite Hg, Hms. simpl. eauto. }
  destruct Hb as [belief Hb].
  pose proof (accumulated_belief_length pdf cfg known distances u belief
                gx gy ones Hg Hb) as Hlen.
  assert (Hne : belief <> []).
  { intros ->. injection Hm as <- _. discriminate Hlen. }
  destruct belief as [|b0 belief]; [congruence|].
  destruct (argmax_Ok (map (fun b => (b / fold_left Np.maximum belief b0)%float)
                         (b0 :: belief)))
    as (k & v & Hk & Hv); [discriminate|].
  destruct (estimate_node_cell pdf cfg known distances u gx gy ones
              (b0 :: belief) _ k v Hg Hb eq_refl Hk Hv) as (c & _ & Hc).
  eauto.
Qed.

Lemma estimate_node_cases u :
  (exists c, estimate_node pdf cfg known distances u = Ok c)
  \/ estimate_node pdf cfg known distances u = Raise KeyError.
Proof.
  destruct (measurements_cases known distances u) as [(ms & E)|E].
  - left. eapply estimate_node_Ok; eauto.
  - right.
    destruct initialize_belief_grid_nonempty
      as (gx & gy & ones & xs & Hg & _).
    unfold estimate_node, accumulated_belief. rewrite Hg, E. reflexivity.
Qed.

Lemma belief_propagation_over_Ok order :
  (forall u, In u order ->
             exists c, estimate_node pdf cfg known distances u = Ok c) ->
  forall est0,
    exists est,
      Py.for_each
        (fun est u =>
           p <- estimate_node pdf cfg known distances u ;;
           Ok (Py.set Z.eqb est u p))
        order est0 = Ok est.
Proof.
  induction order as [|u order IH]; intros H est0; simpl; [eauto|].
  destruct (H u (or_introl eq_refl)) as [c ->]. simpl.
  apply IH. intros w Hw. apply H. now right.
Qed.

Lemma belief_propagation_over_KeyError order u :
  In u order ->
  estimate_node pdf cfg known distances u = Raise KeyError ->
  forall est0,
    Py.for_each
      (fun est u =>
         p <- estimate_node pdf cfg known distances u ;;
         Ok (Py.set Z.eqb est u p))
      order est0 = Raise KeyError.
Proof.
  induction order as [|w order IH]; intros Hin Hu est0; simpl;
    [destruct Hin|].
  destruct (estimate_node_cases w) as [(c & E)|E]; rewrite E; simpl;
    [|reflexivity].
  destruct Hin as [->|Hin]; [congruence|]. now apply IH.
Qed.

End ValidGrid.

Lemma belief_propagation_total
  (pdf : float -> float -> float -> float) (cfg : config)
  (known : @Py.dict node point) (distances : distance_map) :
  0 < grid_size cfg ->
  0 < area_size cfg ->
  (forall a b,
      Py.mem edge_eqb distances (a, b) = true ->
      Py.mem edge_eqb distances (b, a) = true) ->
  exists est, belief_propagation pdf cfg known distances = Ok est.
Proof.
  intros Hg Ha Hsym. unfold belief_propagation, belief_propagation_over.
  apply belief_propagation_over_Ok; auto.
  intros u _.
  destruct (measurements_Ok known distances u) as [ms Hms].
  - intros nbr Hin. apply known_ends_In in Hin.
    destruct Hin as (_ & d & [Hin|[_ Hin]]).
    + apply Hsym. eapply mem_edge_In; eauto.
    + eapply mem_edge_In; eauto.
  - eapply estimate_node_Ok; eauto.
Qed.

(** X6.  On a grid with at least one cell, the grid solver returns for
    every [known_positions] when [distances] holds every pair in both
    directions (as the network simulator builds it): it raises nothing. *)
Theorem belief_propagation_returns_on_symmetric_keys
  (pdf : float -> float -> float -> float) (cfg : config)
  (known : @Py.dict node point) (distances : distance_map) :
  0 < grid_size cfg ->
  0 < area_size cfg ->
  (forall a b,
      Py.mem edge_eqb distances (a, b) = true ->
      Py.mem edge_eqb distances (b, a) = true) ->
  exists est, belief_propagation pdf cfg known distances = Ok est.
Proof. apply belief_propagation_total. Qed.

Lemma belief_propagation_returns_on_symmetric_keys_witness :
  exists est,
    belief_propagation Scipy.norm_pdf (mk_config 1 4 0.5%float)
      [(0%Z, (0, 0)%float)] [((0%Z, 3%Z), 2%float); ((3%Z, 0%Z), 2%float)]
    = Ok est.
Proof.
  apply belief_propagation_returns_on_symmetric_keys;
    [reflexivity | reflexivity |].
  intros a b. unfold Py.mem. cbn [Py.get].
  destruct (SymmetryFacts.edge_eqb_spec (0, 3) (a, b)) as [E|_].
  - injection E as <- <-. intros _. reflexivity.
  - destruct (SymmetryFacts.edge_eqb_spec (3, 0) (a, b)) as [E|_];
      [|discriminate].
    injection E as <- <-. intros _. reflexivity.
Defined.

(** X7.  On a grid with at least one cell, the grid solver raises
    [KeyError] as soon as [distances] has a key [(a, u)] from a known node
    [a] to an unknown node [u] without the key [(u, a)]: the comprehension
    subscripts [distances[(u, a)]]. *)
Theorem belief_propagation_KeyError_on_one_way_key
  (pdf : float -> float -> float -> float) (cfg : config)
  (known : @Py.dict node point) (distances : distance_map)
  (a u : node) (d : float) :
  0 < grid_size cfg ->
  0 < area_size cfg ->
  In ((a, u), d) distances ->
  Py.mem Z.eqb known a = true ->
  Py.mem Z.eqb known u = false ->
  Py.mem edge_eqb distances (u, a) = false ->
  belief_propagation pdf cfg known distances = Raise KeyError.
Proof.
  intros Hg Ha Hin Hka Hku Hmiss.
  unfold belief_propagation, belief_propagation_over.
  apply (belief_propagation_over_KeyError pdf cfg known distances Hg Ha _ u).
  - unfold unknown_nodes. apply nodup_In, filter_In. split.
    + unfold nodes_of. apply in_flat_map. exists ((a, u), d).
      split; [exact Hin | simpl; auto].
    + now rewrite Hku.
  - destruct (initialize_belief_grid_nonempty cfg Hg Ha)
      as (gx & gy & ones & xs & Hgrid & _).
    unfold estimate_node, accumulated_belief. rewrite Hgrid. simpl.
    rewrite (measurements_KeyError known distances u a); [reflexivity| |exact Hmiss].
    apply known_ends_In. split; [exact Hka|]. exists d. now left.
Qed.

Lemma belief_propagation_KeyError_on_one_way_key_witness :
  belief_propagation Scipy.norm_pdf default_config
    [(0%Z, (0, 0)%float)] [((0%Z, 3%Z), 5%float)]
  = Raise KeyError.
Proof.
  apply (belief_propagation_KeyError_on_one_way_key Scipy.norm_pdf
           default_config [(0%Z, (0, 0)%float)] [((0%Z, 3%Z), 5%float)]
           0%Z 3%Z 5%float); try reflexivity.
  left. reflexivity.
Defined.

(** *** A node without known neighbours *)

Lemma ones_amax (l : list float) :
  l <> [] -> Forall (fun b => b = 1%float) l -> Np.amax l = Ok 1%float.
Proof.
  destruct l as [|x l]; [congruence|]. intros _ H.
  inversion H as [|? ? -> Hl]; subst. clear H. simpl. f_equal.
  induction Hl as [|y l -> Hl IH]; simpl; [reflexivity|exact IH].
Qed.

Lemma ones_normalized (l : list float) :
  Forall (fun b => b = 1%float) l -> map (fun b => (b / 1)%float) l = l.
Proof.
  induction 1 as [|y l -> Hl IH]; simpl; [reflexivity|]. now rewrite IH.
Qed.

Lemma ones_argmax (l : list float) :
  l <> [] -> Forall (fun b => b = 1%float) l -> Np.argmax l = Ok 0%nat.
Proof.
  destruct l as [|x l]; [congruence|]. intros _ H.
  inversion H as [|? ? -> Hl]; subst. clear H. simpl. f_equal.
  generalize 1%nat.
  induction Hl as [|y l -> Hl IH]; intros i; simpl; [reflexivity|apply IH].
Qed.

(** X8.  An unknown node none of whose neighbours is known is placed at
    the first cell of the grid, [(0, 0)]: its belief surface stays uniform
    and [np.argmax] returns index 0. *)
Theorem node_without_known_neighbor_at_origin
  (pdf : float -> float -> float -> float) (cfg : config)
  (known : @Py.dict node point) (distances : distance_map)
  (est : @Py.dict node cell) (u : node) :
  0 < grid_size cfg ->
  0 < area_size cfg ->
  belief_propagation pdf cfg known distances = Ok est ->
  In u (unknown_nodes known distances) ->
  known_ends known distances u = [] ->
  Py.get Z.eqb est u = Some (0, 0).
Proof.
  intros Hg Ha Hrun Hu Hends.
  destruct (initialize_belief_grid_nonempty cfg Hg Ha)
    as (gx & gy & ones & xs & Hgrid & Hm & Hones).
  assert (Hall : Forall (fun b => b = 1%float) ones).
  { subst ones. apply Forall_forall. intros b Hb.
    apply in_map_iff in Hb. now destruct Hb as (_ & <- & _). }
  assert (Hne : ones <> []).
  { subst ones. injection Hm as <- _. discriminate. }
  assert (Hb : accumulated_belief pdf cfg known distances u = Ok ones).
  { unfold accumulated_belief, measurements.
    rewrite Hgrid, Hends. reflexivity. }
  assert (Hn : normalize ones = Ok ones).
  { unfold normalize. rewrite (ones_amax ones Hne Hall). simpl.
    now rewrite ones_normalized. }
  assert (Hv : nth_error ones 0 = Some 1%float).
  { destruct Hall; [congruence|]. subst. reflexivity. }
  destruct (estimate_node_cell pdf cfg known distances u gx gy ones ones
              ones 0%nat 1%float Hgrid Hb Hn (ones_argmax ones Hne Hall) Hv)
    as (c & Hc & He).
  assert (c = (0, 0)).
  { injection Hm as <- <-. simpl in Hc. congruence. }
  subst c.
  destruct (belief_propagation_entries pdf cfg known distances est Hrun)
    as (_ & Hget).
  destruct (Hget u Hu) as (c' & He' & Hgetu).
  rewrite He in He'. injection He' as <-. exact Hgetu.
Qed.

Lemma node_without_known_neighbor_at_origin_witness :
  Py.get Z.eqb [(3%Z, (2, 0)); (4%Z, (0, 0))] 4%Z = Some (0, 0).
Proof.
  apply (node_without_known_neighbor_at_origin Scipy.norm_pdf
           (mk_config 1 4 0.5%float) [(0%Z, (0, 0)%float)]
           [((3%Z, 0%Z), 2%float); ((3%Z, 4%Z), 2%float)]
           [(3%Z, (2, 0)); (4%Z, (0, 0))] 4%Z).
  - reflexivity.
  - reflexivity.
  - vm_compute; reflexivity.
  - right. left. reflexivity.
  - reflexivity.
Defined.

(** *** An empty grid *)

Lemma fold_update_belief_nil pdf cfg gx gy ms :
  fold_left (update_belief pdf cfg gx gy) ms [] = [].
Proof. induction ms as [|m ms IH]; simpl; [reflexivity | exact IH]. Qed.

(** X9.  With a positive [grid_size] and an [area_size] that is not
    positive the grid has no cell, and the grid solver never returns when
    there is an unknown node: it raises [ValueError] ([np.max] of an empty
    array), or [KeyError] when the comprehension fails first. *)
Theorem belief_propagation_raises_on_empty_grid
  (pdf : float -> float -> float -> float) (cfg : config)
  (known : @Py.dict node point) (distances : distance_map) :
  0 < grid_size cfg ->
  area_size cfg <= 0 ->
  unknown_nodes known distances <> [] ->
  belief_propagation pdf cfg known distances = Raise ValueError
  \/ belief_propagation pdf cfg known distances = Raise KeyError.
Proof.
  intros Hg Ha Hne. unfold belief_propagation, belief_propagation_over.
  destruct (unknown_nodes known distances) as [|u order]; [congruence|].
  simpl. unfold estimate_node, accumulated_belief, initialize_belief_grid.
  rewrite (arange_empty _ _ Hg Ha). simpl.
  destruct (measurements_cases known distances u) as [(ms & ->)| ->];
    simpl; [left | right; reflexivity].
  now rewrite fold_update_belief_nil.
Qed.

Lemma belief_propagation_raises_on_empty_grid_witness :
  belief_propagation Scipy.norm_pdf (mk_config 1 0 0.5%float)
    [(0%Z, (0, 0)%float)] [((3%Z, 0%Z), 2%float)] = Raise ValueError
  \/ belief_propagation Scipy.norm_pdf (mk_config 1 0 0.5%float)
       [(0%Z, (0, 0)%float)] [((3%Z, 0%Z), 2%float)] = Raise KeyError.
Proof.
  apply belief_propagation_raises_on_empty_grid;
    [reflexivity | discriminate | discriminate].
Defined.

(** *** A pair stored in both directions *)

Lemma comprehension_keys {A B} (f : A -> result B) (key : B -> A) :
  (forall x y, f x = Ok y -> key y = x) ->
  forall l ys, Py.comprehension f l = Ok ys -> map key ys = l.
Proof.
  intros Hkey. induction l as [|x l IH]; simpl; intros ys.
  - now intros [= <-].
  - destruct (f x) as [y|] eqn:E; simpl; [|discriminate].
    destruct (Py.comprehension f l) as [ys'|]; simpl; [|discriminate].
    intros [= <-]. simpl. now rewrite (Hkey x y E), (IH ys').
Qed.

Lemma filter_edge_once (l : list edge) (e : edge) :
  NoDup l -> In e l -> length (filter (fun x => edge_eqb x e) l) = 1%nat.
Proof.
  induction 1 as [|x l Hx Hnd IH]; intros Hin; [destruct Hin|]. simpl.
  destruct (SymmetryFacts.edge_eqb_spec x e) as [->|Hne]; simpl.
  - f_equal. clear - Hx. induction l as [|y l IH]; simpl; [reflexivity|].
    destruct (SymmetryFacts.edge_eqb_spec y e) as [->|_].
    + exfalso. apply Hx. now left.
    + apply IH. intros H. apply Hx. now right.
  - destruct Hin as [->|Hin]; [congruence | now apply IH].
Qed.

Lemma mem_edge_key (distances : distance_map) e :
  Py.mem edge_eqb distances e = true -> In e (Py.keys distances).
Proof.
  unfold Py.mem. induction distances as [|[e' d'] D IH]; simpl;
    [discriminate|].
  destruct (SymmetryFacts.edge_eqb_spec e' e) as [->|_]; auto.
Qed.

Lemma length_filter_cons {A} (f : A -> bool) (x : A) (l : list A) :
  length (filter f (x :: l))
  = ((if f x then 1 else 0) + length (filter f l))%nat.
Proof. simpl. now destruct (f x). Qed.

Lemma length_filter_map {A B} (g : A -> B) (f : B -> bool) (l : list A) :
  length (filter (fun x => f (g x)) l) = length (filter f (map g l)).
Proof.
  induction l as [|x l IH]; simpl; [reflexivity|].
  destruct (f (g x)); simpl; now rewrite IH.
Qed.

(** One key [(a, b)] gives the end [k] for [u] when it is [(u, k)] or
    [(k, u)]. *)
Lemma key_end_count (known : @Py.dict node point) (u k a b : node) :
  Py.mem Z.eqb known k = true ->
  u <> k ->
  length
    (filter (fun n => n =? k)
       (if (u =? a) || (u =? b)
        then (if Py.mem Z.eqb known (if u =? b then a else b)
              then [if u =? b then a else b] else [])
        else []))
  = ((if edge_eqb (a, b) (u, k) then 1 else 0)
     + (if edge_eqb (a, b) (k, u) then 1 else 0))%nat.
Proof.
  intros Hk Hne. unfold edge_eqb. simpl.
  destruct (Z.eqb_spec u a) as [Ea|Ea], (Z.eqb_spec u b) as [Eb|Eb];
    destruct (Z.eqb_spec a u) as [Fa|Fa]; try congruence;
    destruct (Z.eqb_spec b u) as [Fb|Fb]; try congruence;
    destruct (Z.eqb_spec a k) as [Ga|Ga];
    destruct (Z.eqb_spec b k) as [Gb|Gb];
    try congruence; simpl;
    try (subst; rewrite Hk; simpl; rewrite ?Z.eqb_refl; reflexivity);
    try reflexivity;
    match goal with
    | |- context [Py.mem Z.eqb known ?x] =>
        destruct (Py.mem Z.eqb known x); simpl; try reflexivity;
        destruct (Z.eqb_spec x k); simpl; congruence
    end.
Qed.

(** How often a known node [k] is an end for [u]: once for a key
    [(u, k)] and once for a key [(k, u)]. *)
Lemma known_ends_count known (distances : distance_map) u k :
  Py.mem Z.eqb known k = true ->
  u <> k ->
  length (filter (fun n => n =? k) (known_ends known distances u))
  = (length (filter (fun e => edge_eqb e (u, k)) (Py.keys distances))
     + length (filter (fun e => edge_eqb e (k, u)) (Py.keys distances)))%nat.
Proof.
  intros Hk Hne. unfold known_ends, Py.keys.
  induction distances as [|[[a b] d] D IH]; [reflexivity|].
  cbn [flat_map map fst snd].
  rewrite filter_app, length_app, IH, !length_filter_cons.
  pose proof (key_end_count known u k a b Hk Hne) as Hkey.
  match type of Hkey with
  | ?L = _ =>
      match goal with
      | |- (?X + _)%nat = _ => change X with L
      end
  end.
  rewrite Hkey. cbv beta. cbn [fst]. apply Nat.add_shuffle1.
Qed.

(** X10.  A known neighbour whose pair the dictionary holds in both
    directions is read twice by the comprehension of [belief_propagation]:
    the list of measurements holds it two times, so its likelihood is
    multiplied into the belief twice. *)
Theorem neighbor_in_both_directions_counted_twice
  (known : @Py.dict node point) (distances : distance_map)
  (u k : node) (ms : list (node * point * float)) :
  NoDup (Py.keys distances) ->
  Py.mem Z.eqb known k = true ->
  u <> k ->
  Py.mem edge_eqb distances (u, k) = true ->
  Py.mem edge_eqb distances (k, u) = true ->
  measurements known distances u = Ok ms ->
  length (filter (fun m => fst (fst m) =? k) ms) = 2%nat.
Proof.
  intros Hnd Hk Hne H1 H2 Hms.
  assert (Hkeys : map (fun m : node * point * float => fst (fst m)) ms
                  = known_ends known distances u).
  { unfold measurements in Hms. revert Hms. apply comprehension_keys.
    intros x y. destruct (Py.item Z.eqb known x); simpl; [|discriminate].
    destruct (Py.item edge_eqb distances (u, x)); simpl; [|discriminate].
    now intros [= <-]. }
  transitivity
    (length (filter (fun n => n =? k) (known_ends known distances u))).
  - rewrite <- Hkeys.
    apply (length_filter_map (fun m : node * point * float => fst (fst m))
             (fun n => n =? k)).
  - etransitivity; [apply (known_ends_count known distances u k Hk Hne)|].
    exact (f_equal2 Nat.add
             (filter_edge_once _ _ Hnd (mem_edge_key _ _ H1))
             (filter_edge_once _ _ Hnd (mem_edge_key _ _ H2))).
Qed.

Lemma neighbor_in_both_directions_counted_twice_witness :
  length
    (filter (fun m : node * point * float => fst (fst m) =? 0)
       [(0%Z, (0, 0)%float, 2%float); (0%Z, (0, 0)%float, 2%float)])
  = 2%nat.
Proof.
  apply (neighbor_in_both_directions_counted_twice
           [(0%Z, (0, 0)%float)]
           [((0%Z, 3%Z), 2%float); ((3%Z, 0%Z), 2%float)] 3%Z 0%Z).
  - repeat constructor; simpl; intuition congruence.
  - reflexivity.
  - discriminate.
  - reflexivity.
  - reflexivity.
  - reflexivity.
Defined.

End GridExtras.

(** ** The network simulator *)

Module SimulatorFacts.

Import NetworkSimulator PyFacts.
#[local] Open Scope Z_scope.

(** *** Edge dictionaries *)

Lemma get_set_edge (edges : distance_map) (k k' : edge) (d : float) :
  Py.get edge_eqb (Py.set edge_eqb edges k d) k'
  = if edge_eqb k k' then Some d else Py.get edge_eqb edges k'.
Proof.
  induction edges as [|[k0 d0] E IH]; simpl; [reflexivity|].
  destruct (SymmetryFacts.edge_eqb_spec k0 k) as [->|Hne]; simpl.
  - destruct (edge_eqb k k'); reflexivity.
  - rewrite IH. destruct (SymmetryFacts.edge_eqb_spec k0 k') as [->|];
      [|reflexivity].
    destruct (SymmetryFacts.edge_eqb_spec k k'); [congruence|reflexivity].
Qed.

Lemma get_add_edge (edges : distance_map) (i j : node) (d : float)
  (e : edge) :
  Py.get edge_eqb (add_edge edges i j d) e
  = if edge_eqb (j, i) e || edge_eqb (i, j) e then Some d
    else Py.get edge_eqb edges e.
Proof.
  unfold add_edge. rewrite !get_set_edge.
  destruct (edge_eqb (j, i) e), (edge_eqb (i, j) e); reflexivity.
Qed.

Lemma mem_add_edge (edges : distance_map) (i j : node) (d : float)
  (e : edge) :
  Py.mem edge_eqb (add_edge edges i j d) e
  = edge_eqb (j, i) e || edge_eqb (i, j) e || Py.mem edge_eqb edges e.
Proof.
  unfold Py.mem. rewrite get_add_edge.
  destruct (edge_eqb (j, i) e || edge_eqb (i, j) e); reflexivity.
Qed.

Lemma edge_eqb_swap (a b c d : node) :
  edge_eqb (a, b) (c, d) = edge_eqb (b, a) (d, c).
Proof. unfold edge_eqb. simpl. apply andb_comm. Qed.

Lemma add_edge_symmetric edges i j d :
  symmetric edges -> symmetric (add_edge edges i j d).
Proof.
  intros H a b. rewrite !get_add_edge, (H a b).
  rewrite (edge_eqb_swap j i a b), (edge_eqb_swap i j a b).
  destruct (edge_eqb (i, j) (b, a)), (edge_eqb (j, i) (b, a)); reflexivity.
Qed.

(** *** Positions and the first edges *)

Lemma range_In (a b : nat) (x : node) :
  In x (range a b) <-> exists i, x = Z.of_nat i /\ (a <= i < b)%nat.
Proof.
  unfold range. rewrite in_map_iff. split.
  - intros (i & <- & Hi). apply in_seq in Hi. exists i. split; [auto|lia].
  - intros (i & -> & Hi). exists i. split; [auto|]. apply in_seq. lia.
Qed.

Lemma range_NoDup (a b : nat) : NoDup (range a b).
Proof.
  unfold range. generalize (seq_NoDup (b - a) a).
  induction 1 as [|x l Hx Hnd IH]; simpl; constructor; [|exact IH].
  rewrite in_map_iff. intros (y & Hy & Hin).
  apply Nat2Z.inj in Hy. now subst.
Qed.

Lemma positions_item rnd (n i : nat) :
  (i < n)%nat ->
  exists p,
    Py.item Z.eqb (_generate_vehicle_positions rnd n) (Z.of_nat i) = Ok p.
Proof.
  intros Hi. unfold Py.item.
  destruct (get_In (_generate_vehicle_positions rnd n) (Z.of_nat i))
    as [p ->]; [|eauto].
  unfold _generate_vehicle_positions, Py.keys. rewrite map_map. simpl.
  apply in_map_iff. exists i. split; [reflexivity|]. apply in_seq. lia.
Qed.

Lemma positions_item_range rnd (n : nat) (x : node) :
  In x (range 0 n) ->
  exists p, Py.item Z.eqb (_generate_vehicle_positions rnd n) x = Ok p.
Proof.
  intros H. apply range_In in H. destruct H as (i & -> & Hi).
  apply positions_item. lia.
Qed.

Lemma add_edge_within_range n comm_range edges i j d :
  within_range n comm_range edges ->
  i <> j -> In i (range 0 n) -> In j (range 0 n) ->
  PrimFloat.leb d comm_range = true ->
  within_range n comm_range (add_edge edges i j d).
Proof.
  intros H Hij Hi Hj Hd a b d'. rewrite get_add_edge.
  destruct (SymmetryFacts.edge_eqb_spec (j, i) (a, b)) as [[= <- <-]|_];
    simpl; [intros [= <-]; auto|].
  destruct (SymmetryFacts.edge_eqb_spec (i, j) (a, b)) as [[= <- <-]|_];
    simpl; [intros [= <-]; auto|].
  apply H.
Qed.

Lemma generated_edges_Ok
  (rnd : random_source) (n : nat) (comm_range : float) :
  exists edges,
    _generate_edges (_generate_vehicle_positions rnd n) n comm_range
    = Ok edges
    /\ symmetric edges /\ within_range n comm_range edges.
Proof.
  set (positions := _generate_vehicle_positions rnd n).
  set (inner := fun (i : nat) (edges : distance_map) (j : node) =>
         pi <- Py.item Z.eqb positions (Z.of_nat i) ;;
         pj <- Py.item Z.eqb positions j ;;
         (if PrimFloat.leb (_distance pi pj) comm_range
          then Ok (add_edge edges (Z.of_nat i) j (_distance pi pj))
          else Ok edges)).
  set (P := fun edges : distance_map =>
              symmetric edges /\ within_range n comm_range edges).
  assert (Hinner : forall i js edges,
             (i < n)%nat ->
             (forall j, In j js -> In j (range (i + 1) n)) ->
             P edges ->
             exists edges',
               Py.for_each (inner i) js edges = Ok edges' /\ P edges').
  { intros i js. induction js as [|j js IH]; intros edges Hi Hjs HP;
      simpl; [eauto|].
    assert (Hj : In j (range (i + 1) n)) by (apply Hjs; now left).
    apply range_In in Hj. destruct Hj as (jn & -> & Hjn).
    unfold inner at 1.
    destruct (positions_item rnd n i Hi) as [pi Hpi].
    destruct (positions_item rnd n jn) as [pj Hpj]; [lia|].
    fold positions in Hpi, Hpj. rewrite Hpi, Hpj. cbn [Py.bind].
    destruct (PrimFloat.leb (_distance pi pj) comm_range) eqn:Hd;
      cbn [Py.bind]; apply IH; auto; try (intros; apply Hjs; now right).
    destruct HP as [Hs Hw]. split.
    - now apply add_edge_symmetric.
    - apply add_edge_within_range; auto; try lia;
        (apply range_In; eexists; split; [reflexivity|lia]). }
  assert (Houter : forall is_ edges,
             (forall i, In i is_ -> (i < n)%nat) ->
             P edges ->
             exists edges',
               Py.for_each
                 (fun edges i =>
                    Py.for_each (inner i) (range (i + 1) n) edges)
                 is_ edges = Ok edges' /\ P edges').
  { induction is_ as [|i is_ IH]; intros edges His HP; simpl; [eauto|].
    destruct (Hinner i (range (i + 1) n) edges) as (e1 & -> & HP1); auto.
    - apply His. now left.
    - cbn [Py.bind]. apply IH; auto. intros; apply His; now right. }
  destruct (Houter (seq 0 n) []) as (edges & Hrun & Hs & Hw).
  - intros i Hi. apply in_seq in Hi. lia.
  - split; [intros a b; reflexivity | intros a b d; discriminate].
  - exists edges. split; [exact Hrun|]. split; [exact Hs | exact Hw].
Qed.

(** X11.  [_generate_edges] on generated positions raises nothing, and
    the dictionary it returns holds every pair in both directions with the
    same distance, only between two different vehicles of
    [range(num_vehicles)], and only distances that are at most
    [comm_range]. *)
Theorem generated_edges_symmetric_within_range
  (rnd : random_source) (n : nat) (comm_range : float) :
  exists edges,
    _generate_edges (_generate_vehicle_positions rnd n) n comm_range
    = Ok edges
    /\ (forall a b,
           Py.get edge_eqb edges (a, b) = Py.get edge_eqb edges (b, a))
    /\ forall a b d,
         Py.get edge_eqb edges (a, b) = Some d ->
         a <> b /\ In a (range 0 n) /\ In b (range 0 n)
         /\ PrimFloat.leb d comm_range = true.
Proof. exact (generated_edges_Ok rnd n comm_range). Qed.

(** *** Connectivity repair *)

Lemma filter_length_le {A} (f g : A -> bool) (l : list A) :
  (forall x, In x l -> f x = true -> g x = true) ->
  (length (filter f l) <= length (filter g l))%nat.
Proof.
  induction l as [|x l IH]; intros H; simpl; [lia|].
  assert (IH' : (length (filter f l) <= length (filter g l))%nat)
    by (apply IH; intros; apply H; auto; now right).
  destruct (f x) eqn:F.
  - rewrite (H x (or_introl eq_refl) F). simpl. lia.
  - destruct (g x); simpl; lia.
Qed.

Lemma filter_length_one_more (f g : node -> bool) (l : list node)
  (y : node) :
  NoDup l -> In y l -> f y = false ->
  (forall x, g x = f x || (x =? y)) ->
  length (filter g l) = S (length (filter f l)).
Proof.
  intros Hnd Hin Hf Hg. induction Hnd as [|x l Hx Hnd IH]; [destruct Hin|].
  simpl. rewrite (Hg x). destruct Hin as [->|Hin].
  - rewrite Hf, Z.eqb_refl. simpl. f_equal.
    f_equal. apply filter_ext_in. intros a Ha. rewrite Hg.
    destruct (Z.eqb_spec a y) as [->|]; [contradiction|].
    apply orb_false_r.
  - destruct (Z.eqb_spec x y) as [->|_]; [contradiction|].
    rewrite orb_false_r. destruct (f x); simpl; now rewrite IH.
Qed.

Lemma filter_nil_mono {A} (f g : A -> bool) (l : list A) :
  (forall x, In x l -> g x = true -> f x = true) ->
  filter f l = [] -> filter g l = [].
Proof.
  induction l as [|x l IH]; intros H; simpl; [reflexivity|].
  destruct (f x) eqn:F; [discriminate|]. intros Hf.
  destruct (g x) eqn:G.
  - rewrite (H x (or_introl eq_refl) G) in F. discriminate.
  - apply IH; auto. intros; apply H; auto. now right.
Qed.

Lemma existsb_eqb_In (m : node) (l : list node) :
  existsb (Z.eqb m) l = true <-> In m l.
Proof.
  rewrite existsb_exists. split.
  - intros (x & Hx & E). apply Z.eqb_eq in E. now subst.
  - intros H. exists m. split; [exact H | apply Z.eqb_refl].
Qed.

Lemma potential_neighbors_In n edges nd m :
  In m (potential_neighbors n edges nd) <->
  In m (range 0 n) /\ m <> nd /\ linked edges nd m = false.
Proof.
  unfold potential_neighbors. rewrite filter_In, andb_true_iff,
    !negb_true_iff, Z.eqb_neq.
  split; intros (Hr & H); (split; [exact Hr|]); destruct H as [Hne Hl];
    (split; [exact Hne|]).
  - destruct (linked edges nd m) eqn:L; [|reflexivity].
    assert (In m (get_neighbors n edges nd))
      by (apply filter_In; split; assumption).
    apply existsb_eqb_In in H. congruence.
  - destruct (existsb (Z.eqb m) (get_neighbors n edges nd)) eqn:E;
      [|reflexivity].
    apply existsb_eqb_In in E. apply filter_In in E. destruct E as [_ E].
    unfold linked in Hl. congruence.
Qed.

Lemma extends_linked edges edges' nd m :
  extends edges edges' ->
  linked edges nd m = true -> linked edges' nd m = true.
Proof.
  intros H. unfold linked, Py.mem. intros L.
  destruct (Py.get edge_eqb edges (nd, m)) as [d|] eqn:E1.
  - now rewrite (H _ _ E1).
  - destruct (Py.get edge_eqb edges (m, nd)) as [d|] eqn:E2;
      [|discriminate].
    rewrite (H _ _ E2). apply orb_true_r.
Qed.

Lemma extends_degree n edges edges' nd :
  extends edges edges' ->
  (length (get_neighbors n edges nd)
   <= length (get_neighbors n edges' nd))%nat.
Proof.
  intros H. apply filter_length_le. intros m _. now apply extends_linked.
Qed.

Lemma extends_potential_nil n edges edges' nd :
  extends edges edges' ->
  potential_neighbors n edges nd = [] ->
  potential_neighbors n edges' nd = [].
Proof.
  intros H Hnil.
  destruct (potential_neighbors n edges' nd) as [|m l] eqn:E;
    [reflexivity|exfalso].
  assert (Hm : In m (potential_neighbors n edges' nd))
    by (rewrite E; now left).
  apply potential_neighbors_In in Hm. destruct Hm as (Hr & Hne & Hl).
  assert (Hm : In m (potential_neighbors n edges nd)).
  { apply potential_neighbors_In. repeat split; auto.
    destruct (linked edges nd m) eqn:L; [|reflexivity].
    rewrite (extends_linked _ _ _ _ H L) in Hl. discriminate. }
  rewrite Hnil in Hm. destruct Hm.
Qed.

Lemma add_edge_extends edges nd new d :
  linked edges nd new = false -> extends edges (add_edge edges nd new d).
Proof.
  unfold linked, Py.mem. intros L e d' He. rewrite get_add_edge.
  destruct (SymmetryFacts.edge_eqb_spec (new, nd) e) as [<-|_];
    [rewrite He in L; rewrite orb_true_r in L; discriminate|].
  destruct (SymmetryFacts.edge_eqb_spec (nd, new) e) as [<-|_];
    [rewrite He in L; discriminate|].
  exact He.
Qed.

Lemma add_edge_degree n edges nd new d :
  In new (range 0 n) -> new <> nd -> linked edges nd new = false ->
  length (get_neighbors n (add_edge edges nd new d) nd)
  = S (length (get_neighbors n edges nd)).
Proof.
  intros Hr Hne Hl. unfold get_neighbors.
  apply (filter_length_one_more (linked edges nd) _ _ new);
    auto using range_NoDup.
  intros m. fold (linked (add_edge edges nd new d) nd m).
  unfold linked. rewrite !mem_add_edge. unfold edge_eqb. simpl.
  rewrite Z.eqb_refl.
  destruct (Z.eqb_spec new nd); [congruence|].
  destruct (Z.eqb_spec new m) as [->|Hm].
  - rewrite Z.eqb_refl. simpl. rewrite !orb_true_r. reflexivity.
  - destruct (Z.eqb_spec m new); [congruence|]. simpl.
    rewrite !andb_false_r, !orb_false_r. simpl.
    destruct (Py.mem edge_eqb edges (nd, m)),
      (Py.mem edge_eqb edges (m, nd)); reflexivity.
Qed.

Section Repair.

Variable rnd : random_source.
Variable n : nat.

(** [random.choice] returns an element of a non-empty list. *)
Hypothesis choice_In :
  forall i l, l <> [] -> In (choice rnd i l) l.

#[local] Abbreviation positions := (_generate_vehicle_positions rnd n).

(** The loop for one node ends within the fuel that its missing
    neighbours ask for, raises nothing, keeps the entries and the
    symmetry, and leaves the node with three neighbours or more, or with
    nobody left to link it to. *)
Lemma connect_node_repairs (nd : node) : forall fuel edges count,
  In nd (range 0 n) ->
  symmetric edges ->
  (3 <= length (get_neighbors n edges nd) + fuel)%nat ->
  exists edges' count',
    connect_node fuel rnd positions n nd (edges, count)
    = Some (Ok (edges', count'))
    /\ symmetric edges'
    /\ extends edges edges'
    /\ ((3 <= length (get_neighbors n edges' nd))%nat
        \/ potential_neighbors n edges' nd = []).
Proof.
  intros fuel. induction fuel as [|fuel IH]; intros edges count Hnd Hs Hf;
    simpl; destruct (Nat.ltb_spec (length (get_neighbors n edges nd)) 3)
    as [Hlt|Hge];
    try (exists edges, count; repeat split; auto; [intros e d H; exact H]);
    [lia|].
  destruct (potential_neighbors n edges nd) as [|m l] eqn:Hp.
  - exists edges, count. repeat split; auto. intros e d H; exact H.
  - set (new := choice rnd count (m :: l)).
    assert (Hin : In new (potential_neighbors n edges nd))
      by (rewrite Hp; apply choice_In; discriminate).
    apply potential_neighbors_In in Hin.
    destruct Hin as (Hr & Hne & Hl).
    destruct (positions_item_range rnd n nd Hnd) as [p1 ->].
    destruct (positions_item_range rnd n new Hr) as [p2 ->].
    set (d := _distance p1 p2).
    destruct (IH (add_edge edges nd new d) (S count) Hnd)
      as (edges' & count' & Hrun & Hs' & Hext & Hdone).
    + now apply add_edge_symmetric.
    + rewrite (add_edge_degree n edges nd new d Hr Hne Hl). lia.
    + exists edges', count'. repeat split; auto.
      intros e d' He. apply Hext. now apply add_edge_extends.
Qed.

Lemma connect_nodes_repair (nodes : list node) : forall edges count,
  (forall nd, In nd nodes -> In nd (range 0 n)) ->
  symmetric edges ->
  exists edges' count',
    connect_nodes rnd positions n nodes (edges, count)
    = Some (Ok (edges', count'))
    /\ symmetric edges'
    /\ extends edges edges'
    /\ forall nd,
         In nd nodes ->
         (3 <= length (get_neighbors n edges' nd))%nat
         \/ potential_neighbors n edges' nd = [].
Proof.
  induction nodes as [|nd nodes IH]; intros edges count Hr Hs;
    cbn [connect_nodes].
  - exists edges, count. repeat split; auto; [intros e d H; exact H|].
    intros nd [].
  - destruct (connect_node_repairs nd 3 edges count)
      as (e1 & c1 & -> & Hs1 & Hx1 & Hd1); auto; [apply Hr; now left|lia|].
    destruct (IH e1 c1) as (e2 & c2 & -> & Hs2 & Hx2 & Hd2); auto.
    { intros; apply Hr; now right. }
    exists e2, c2. repeat split; auto.
    + intros e d H. apply Hx2, Hx1, H.
    + intros x [<-|Hx]; [|now apply Hd2].
      destruct Hd1 as [H3|Hnil].
      * left. pose proof (extends_degree n e1 e2 nd Hx2). lia.
      * right. eapply extends_potential_nil; eauto.
Qed.

End Repair.

Lemma no_potential_degree n edges nd :
  In nd (range 0 n) ->
  potential_neighbors n edges nd = [] ->
  (n - 1 <= length (get_neighbors n edges nd))%nat.
Proof.
  intros Hnd Hnil.
  assert (Hlen : length (filter (fun m => negb (m =? nd)) (range 0 n))
                 = (n - 1)%nat).
  { pose proof (filter_length_one_more (fun m => negb (m =? nd))
                  (fun _ => true) (range 0 n) nd (range_NoDup 0 n) Hnd) as H.
    cbv beta in H. rewrite Z.eqb_refl in H. specialize (H eq_refl).
    assert (Hall : filter (fun _ : node => true) (range 0 n) = range 0 n).
    { clear. induction (range 0 n) as [|x l IH]; simpl; congruence. }
    rewrite Hall in H.
    assert (Hr : length (range 0 n) = n)
      by (unfold range; rewrite length_map, length_seq; lia).
    rewrite Hr in H.
    assert (Hn : n = S (length (filter (fun m => negb (m =? nd))
                              (range 0 n))))
      by (apply H; intros x; now destruct (x =? nd)).
    lia. }
  rewrite <- Hlen. apply filter_length_le. intros m Hm Hne.
  apply negb_true_iff, Z.eqb_neq in Hne.
  destruct (linked edges nd m) eqn:L; [exact L|].
  assert (In m (potential_neighbors n edges nd))
    by (apply potential_neighbors_In; auto).
  rewrite Hnil in H. destruct H.
Qed.

(** X12.  [ensure_full_connectivity] ends and raises nothing; it keeps
    every entry of the edge dictionary with its distance, keeps both
    directions of every pair equal, and leaves every vehicle with at least
    three neighbours, or with all the other vehicles as neighbours when
    there are fewer than four vehicles. *)
Theorem ensure_full_connectivity_gives_three_neighbors
  (rnd : random_source) (n : nat) (edges : distance_map) :
  (forall i l, l <> [] -> In (choice rnd i l) l) ->
  (forall a b,
      Py.get edge_eqb edges (a, b) = Py.get edge_eqb edges (b, a)) ->
  exists edges',
    ensure_full_connectivity rnd (_generate_vehicle_positions rnd n) n edges
    = Some (Ok edges')
    /\ (forall a b,
           Py.get edge_eqb edges' (a, b) = Py.get edge_eqb edges' (b, a))
    /\ (forall e d,
           Py.get edge_eqb edges e = Some d ->
           Py.get edge_eqb edges' e = Some d)
    /\ forall nd,
         In nd (range 0 n) ->
         (Nat.min 3 (n - 1) <= length (get_neighbors n edges' nd))%nat.
Proof.
  intros Hchoice Hsym. unfold ensure_full_connectivity.
  destruct (connect_nodes_repair rnd n Hchoice (range 0 n) edges 0%nat)
    as (e1 & c1 & -> & Hs & Hx & Hd); auto.
  exists e1. repeat split; auto.
  intros nd Hnd. destruct (Hd nd Hnd) as [H3|Hnil]; [lia|].
  pose proof (no_potential_degree n e1 nd Hnd Hnil). lia.
Qed.

Lemma ensure_full_connectivity_gives_three_neighbors_witness :
  exists edges',
    ensure_full_connectivity
      (mk_random (fun i => Np.of_Z (Z.of_nat i)) [0] (fun _ l => hd 0 l))
      (_generate_vehicle_positions
         (mk_random (fun i => Np.of_Z (Z.of_nat i)) [0] (fun _ l => hd 0 l))
         5)
      5 []
    = Some (Ok edges')
    /\ (3 <= length (get_neighbors 5 edges' 4%Z))%nat.
Proof.
  destruct (ensure_full_connectivity_gives_three_neighbors
              (mk_random (fun i => Np.of_Z (Z.of_nat i)) [0]
                 (fun _ l => hd 0 l)) 5 [])
    as (edges' & Hrun & _ & _ & Hdeg).
  - intros i [|x l] H; [congruence | now left].
  - reflexivity.
  - exists edges'. split; [exact Hrun|].
    apply (Hdeg 4). apply range_In. exists 4%nat.
    split; [reflexivity | lia].
Defined.

(** *** The constructor *)

Lemma select_anchors_spec rnd (positions : @Py.dict node point) :
  (forall k, In k (sample rnd) -> In k (Py.keys positions)) ->
  exists anchors,
    _select_anchors rnd positions = Ok anchors
    /\ (forall k, In k (Py.keys anchors) <-> In k (sample rnd))
    /\ forall k p,
         Py.get Z.eqb anchors k = Some p ->
         Py.get Z.eqb positions k = Some p.
Proof.
  unfold _select_anchors. intros Hs.
  assert (H : forall l anchors0,
             (forall k, In k l -> In k (Py.keys positions)) ->
             (forall k p, Py.get Z.eqb anchors0 k = Some p ->
                          Py.get Z.eqb positions k = Some p) ->
             exists anchors,
               Py.for_each
                 (fun anchors nd =>
                    p <- Py.item Z.eqb positions nd ;;
                    Ok (Py.set Z.eqb anchors nd p))
                 l anchors0 = Ok anchors
               /\ (forall k, In k (Py.keys anchors)
                             <-> In k (Py.keys anchors0) \/ In k l)
               /\ forall k p,
                    Py.get Z.eqb anchors k = Some p ->
                    Py.get Z.eqb positions k = Some p).
  { induction l as [|nd l IH]; intros anchors0 Hl H0; simpl.
    - exists anchors0. repeat split; auto; tauto.
    - destruct (get_In positions nd (Hl nd (or_introl eq_refl)))
        as [p Hp].
      unfold Py.item at 1. rewrite Hp. cbn [Py.bind].
      destruct (IH (Py.set Z.eqb anchors0 nd p))
        as (anchors & Hrun & Hkeys & Hget).
      + intros; apply Hl; now right.
      + intros k q. destruct (Z.eq_dec nd k) as [<-|Hne].
        * rewrite get_set_same. now intros [= <-].
        * rewrite get_set_other by exact Hne. apply H0.
      + exists anchors. split; [exact Hrun|]. split; [|exact Hget].
        intros k. rewrite Hkeys. split.
        * intros [H|H]; [|auto].
          apply LocateExtras.keys_set_In in H. destruct H; auto.
        * intros [H|[<-|H]]; auto; left.
          -- apply mem_true_In. unfold Py.mem.
             destruct (Z.eq_dec nd k) as [<-|Hne];
               [now rewrite get_set_same|].
             rewrite get_set_other by exact Hne.
             apply mem_true_In in H. exact H.
          -- apply mem_true_In. unfold Py.mem. now rewrite get_set_same. }
  destruct (H (sample rnd) []) as (anchors & Hrun & Hkeys & Hget); auto.
  - intros k p. discriminate.
  - exists anchors. split; [exact Hrun|]. split; [|exact Hget].
    intros k. rewrite Hkeys. simpl. tauto.
Qed.

Lemma positions_keys rnd n : Py.keys (_generate_vehicle_positions rnd n)
                             = range 0 n.
Proof.
  unfold _generate_vehicle_positions, Py.keys, range.
  rewrite map_map, Nat.sub_0_r. reflexivity.
Qed.

(** What a constructed simulator is, for any random source whose
    [choice] and [sample] are what [random] makes them. *)
Lemma init_spec (rnd : random_source) (n : nat) (comm_range : float) :
  (forall i l, l <> [] -> In (choice rnd i l) l) ->
  (forall k, In k (sample rnd) -> In k (range 0 n)) ->
  exists sim,
    init rnd n comm_range = Some (Ok sim)
    /\ vehicle_positions sim = _generate_vehicle_positions rnd n
    /\ symmetric (edges sim)
    /\ (forall nd,
           In nd (range 0 n) ->
           (Nat.min 3 (n - 1)
            <= length (get_neighbors n (edges sim) nd))%nat)
    /\ (forall k, In k (Py.keys (anchors sim)) <-> In k (sample rnd))
    /\ forall k p,
         Py.get Z.eqb (anchors sim) k = Some p ->
         Py.get Z.eqb (vehicle_positions sim) k = Some p.
Proof.
  intros Hchoice Hsample. unfold init.
  destruct (generated_edges_Ok rnd n comm_range) as (e0 & -> & Hs0 & _).
  destruct (select_anchors_spec rnd (_generate_vehicle_positions rnd n))
    as (anchors & -> & Hkeys & Hget).
  { intros k Hk. rewrite positions_keys. now apply Hsample. }
  unfold ensure_full_connectivity.
  destruct (connect_nodes_repair rnd n Hchoice (range 0 n) e0 0%nat)
    as (e1 & c1 & -> & Hs & Hx & Hd); auto.
  eexists. split; [reflexivity|].
  cbn [NetworkSimulator.edges NetworkSimulator.anchors
         NetworkSimulator.vehicle_positions fst]. repeat split; auto.
  - intros nd Hnd. destruct (Hd nd Hnd) as [H3|Hnil]; [lia|].
    pose proof (no_potential_degree n e1 nd Hnd Hnil). lia.
  - apply Hkeys.
  - apply Hkeys.
Qed.

(** X13.  For every random source, the constructor of [NetworkSimulator]
    ends and raises nothing.  The anchors are exactly the sampled nodes,
    each with its own vehicle position; the edge dictionary holds both
    directions of every pair with the same distance, and gives every
    vehicle at least three neighbours (all the others when there are
    fewer than four vehicles). *)
Theorem simulator_is_well_formed
  (rnd : random_source) (n : nat) (comm_range : float) :
  (forall i l, l <> [] -> In (choice rnd i l) l) ->
  (forall k, In k (sample rnd) -> In k (range 0 n)) ->
  exists sim,
    init rnd n comm_range = Some (Ok sim)
    /\ (forall a b,
           Py.get edge_eqb (get_distances sim) (a, b)
           = Py.get edge_eqb (get_distances sim) (b, a))
    /\ (forall nd,
           In nd (range 0 n) ->
           (Nat.min 3 (n - 1)
            <= length (get_neighbors n (get_distances sim) nd))%nat)
    /\ (forall k,
           In k (Py.keys (get_anchor_positions sim)) <-> In k (sample rnd))
    /\ forall k p,
         Py.get Z.eqb (get_anchor_positions sim) k = Some p ->
         Py.get Z.eqb (vehicle_positions sim) k = Some p.
Proof.
  intros Hc Hs.
  destruct (init_spec rnd n comm_range Hc Hs)
    as (sim & Hrun & _ & Hsym & Hdeg & Hkeys & Hget).
  exists sim. auto.
Qed.

Lemma simulator_is_well_formed_witness :
  exists sim,
    init (mk_random (fun i => Np.of_Z (Z.of_nat (i * 37 mod 100))) [0; 2]
            (fun _ l => hd 0 l)) 5 30%float
    = Some (Ok sim)
    /\ (3 <= length (get_neighbors 5 (get_distances sim) 4%Z))%nat.
Proof.
  destruct (simulator_is_well_formed
              (mk_random (fun i => Np.of_Z (Z.of_nat (i * 37 mod 100)))
                 [0; 2] (fun _ l => hd 0 l)) 5 30%float)
    as (sim & Hrun & _ & Hdeg & _).
  - intros i [|x l] H; [congruence | now left].
  - intros k [<-|[<-|[]]]; apply range_In;
      [exists 0%nat | exists 2%nat]; split; try reflexivity; lia.
  - exists sim. split; [exact Hrun|].
    apply (Hdeg 4). apply range_In. exists 4%nat.
    split; [reflexivity | lia].
Defined.

(** X14.  The network of a constructed simulator can always be given to
    the grid solver: on a grid with at least one cell,
    [belief_propagation] on the simulator's anchors and distances returns
    an estimate for every vehicle that is no anchor, and raises
    nothing. *)
Theorem grid_solver_returns_on_simulated_network
  (pdf : float -> float -> float -> float) (cfg : BeliefPropagation.config)
  (rnd : random_source) (n : nat) (comm_range : float) :
  0 < BeliefPropagation.grid_size cfg ->
  0 < BeliefPropagation.area_size cfg ->
  (forall i l, l <> [] -> In (choice rnd i l) l) ->
  (forall k, In k (sample rnd) -> In k (range 0 n)) ->
  exists sim est,
    init rnd n comm_range = Some (Ok sim)
    /\ BeliefPropagation.belief_propagation pdf cfg
         (get_anchor_positions sim) (get_distances sim) = Ok est
    /\ Py.keys est
       = unknown_nodes (get_anchor_positions sim) (get_distances sim).
Proof.
  intros Hg Ha Hc Hs.
  destruct (init_spec rnd n comm_range Hc Hs)
    as (sim & Hrun & _ & Hsym & _).
  destruct (GridExtras.belief_propagation_total pdf cfg
              (get_anchor_positions sim) (get_distances sim) Hg Ha)
    as [est Hest].
  - intros a b. unfold Py.mem, get_distances. now rewrite (Hsym a b).
  - exists sim, est. split; [exact Hrun|]. split; [exact Hest|].
    apply (BeliefFacts.belief_propagation_entries pdf cfg _ _ est Hest).
Qed.

Lemma grid_solver_returns_on_simulated_network_witness :
  exists sim est,
    init (mk_random (fun i => Np.of_Z (Z.of_nat (i * 37 mod 100))) [0; 2]
            (fun _ l => hd 0 l)) 5 30%float
    = Some (Ok sim)
    /\ BeliefPropagation.belief_propagation Scipy.norm_pdf
         BeliefPropagation.default_config
         (get_anchor_positions sim) (get_distances sim) = Ok est.
Proof.
  destruct (grid_solver_returns_on_simulated_network Scipy.norm_pdf
              BeliefPropagation.default_config
              (mk_random (fun i => Np.of_Z (Z.of_nat (i * 37 mod 100)))
                 [0; 2] (fun _ l => hd 0 l)) 5 30%float)
    as (sim & est & Hrun & Hest & _).
  - reflexivity.
  - reflexivity.
  - intros i [|x l] H; [congruence | now left].
  - intros k [<-|[<-|[]]]; apply range_In;
      [exists 0%nat | exists 2%nat]; split; try reflexivity; lia.
  - exists sim, est. split; [exact Hrun | exact Hest].
Defined.

End SimulatorFacts.


(** ** The evaluation script and the sample algorithm *)

Module ScriptFacts.

Import PyFacts.
#[local] Open Scope nat_scope.

Lemma keys_set_iff {V} (d : @Py.dict node V) k v x :
  In x (Py.keys (Py.set Z.eqb d k v)) <-> In x (Py.keys d) \/ x = k.
Proof.
  induction d as [|[k' v'] d IH]; simpl.
  - split; [intros [<-|[]]; auto | intros [[]| ->]; auto].
  - destruct (Z.eqb_spec k' k) as [->|Hne]; simpl.
    + split; [tauto | intros [H| ->]; auto].
    + rewrite IH. tauto.
Qed.

Lemma NoDup_keys_filter {V} (f : node * V -> bool) (d : @Py.dict node V) :
  NoDup (Py.keys d) -> NoDup (Py.keys (filter f d)).
Proof.
  unfold Py.keys. induction d as [|x d IH]; simpl; intros H; [constructor|].
  inversion H as [|? ? Hx Hd]; subst.
  destruct (f x); simpl; [|now apply IH].
  constructor; [|now apply IH].
  intros Hin. apply Hx. apply in_map_iff in Hin.
  destruct Hin as (y & Hy & Hin). apply filter_In in Hin.
  apply in_map_iff. exists y. tauto.
Qed.

Lemma count_matched_le_estimated_keys {P} (to_point : P -> point)
  (actual : @Py.dict node point) (estimated : @Py.dict node P) :
  Main.count_matched to_point actual estimated
  <= length (filter (fun kv => Py.mem Z.eqb estimated (fst kv)) actual).
Proof.
  unfold Main.count_matched.
  assert (H : forall acc,
             fold_left
               (fun matched kv =>
                  match Py.get Z.eqb estimated (fst kv) with
                  | Some estimated_pos =>
                      if PrimFloat.leb
                           (Np.norm (Np.vsub (snd kv)
                                       (to_point estimated_pos)))
                           Main.ACCURACY_THRESHOLD
                      then S matched else matched
                  | None => matched
                  end) actual acc
             <= acc + length (filter (fun kv => Py.mem Z.eqb estimated
                                                  (fst kv)) actual)).
  { induction actual as [|kv l IH]; intros acc; simpl; [lia|].
    unfold Py.mem at 1.
    match goal with
    | |- context [match ?g with Some _ => true | None => false end] =>
        destruct g as [e|]
    end; simpl.
    - match goal with
      | |- context [if ?b then S acc else acc] => destruct b
      end; [specialize (IH (S acc)) | specialize (IH acc)]; lia.
    - apply IH. }
  apply (H 0).
Qed.

(** X15.  The evaluation of [main.py] never counts more matched nodes
    than there are estimated positions: [matched <= total_estimated],
    whatever the estimates are, the keys of [actual_positions] being
    distinct as in every Python dictionary. *)
Theorem matched_at_most_total_estimated {P : Type} (to_point : P -> point)
  (actual_positions : @Py.dict node point)
  (estimated_positions : @Py.dict node P) :
  NoDup (Py.keys actual_positions) ->
  Main.count_matched to_point actual_positions estimated_positions
  <= length estimated_positions.
Proof.
  intros Hnd.
  etransitivity; [apply count_matched_le_estimated_keys|].
  set (l := filter (fun kv => Py.mem Z.eqb estimated_positions (fst kv))
              actual_positions).
  rewrite <- (length_map fst l), <- (length_map fst estimated_positions).
  apply NoDup_incl_length.
  - apply (NoDup_keys_filter _ actual_positions Hnd).
  - intros k Hk. apply in_map_iff in Hk. destruct Hk as (kv & <- & Hin).
    apply filter_In in Hin. destruct Hin as [_ Hm].
    now apply mem_true_In in Hm.
Qed.

Lemma matched_at_most_total_estimated_witness :
  Main.count_matched (fun p : point => p)
    [(0%Z, (0, 0)); (3%Z, (3, 4)); (4%Z, (9, 9))]%float
    [(3%Z, (3, 5)); (4%Z, (1, 1))]%float
  <= 2.
Proof.
  apply (matched_at_most_total_estimated (fun p : point => p)
           [(0%Z, (0, 0)); (3%Z, (3, 4)); (4%Z, (9, 9))]%float
           [(3%Z, (3, 5)); (4%Z, (1, 1))]%float).
  repeat constructor; simpl; intuition congruence.
Defined.

(** X16.  The sample algorithm returns a guess for exactly the cars that
    share a key of [distances] with [car_id]: the second end of a key that
    starts at [car_id], and the first end of a key that ends there. *)
Theorem sample_algorithm_guesses_the_neighbors
  (uniform : nat -> float) (car_id : node) (distances : distance_map)
  (k : node) :
  In k (Py.keys (SampleAlgorithm.locate_other_vehicles uniform car_id
                   distances))
  <-> exists d,
        In ((car_id, k), d) distances
        \/ (k <> car_id /\ In ((k, car_id), d) distances).
Proof.
  unfold SampleAlgorithm.locate_other_vehicles.
  assert (H : forall l st,
             In k (Py.keys (fst (fold_left
                                   (SampleAlgorithm.guess uniform car_id)
                                   l st)))
             <-> In k (Py.keys (fst st))
                 \/ exists d,
                      In ((car_id, k), d) l
                      \/ (k <> car_id /\ In ((k, car_id), d) l)).
  { induction l as [|[[i j] d] l IH]; intros st; simpl.
    - split; [auto | intros [H|(d & [[]|[_ []]])]; exact H].
    - rewrite IH. unfold SampleAlgorithm.guess. simpl.
      destruct (Z.eqb_spec i car_id) as [->|Hi]; simpl.
      + rewrite keys_set_iff. split.
        * intros [[H| ->]|(d' & [H|H])]; eauto 6.
          right. exists d'. tauto.
        * intros [H|(d' & [[[= <- <-]|H]|[Hk [[= -> _]|H]]])]; eauto 6;
            try congruence; right; exists d'; tauto.
      + destruct (Z.eqb_spec j car_id) as [->|Hj]; simpl.
        * rewrite keys_set_iff. split.
          -- intros [[H| ->]|(d' & [H|H])]; eauto 6;
               right; exists d'; tauto.
          -- intros [H|(d' & [[[= -> _]|H]|[Hk [[= <-]|H]]])]; eauto 6;
               try congruence; right; exists d'; tauto.
        * split.
          -- intros [H|(d' & [H|H])]; eauto 6; right; exists d'; tauto.
          -- intros [H|(d' & [[[= -> _]|H]|[Hk [[= _ ->]|H]]])]; eauto 6;
               try congruence; right; exists d'; tauto. }
  rewrite H. simpl. tauto.
Qed.

End ScriptFacts.
